(** * Negotiation economics and counter-offer policy

    A shallow embedding of [services/negotiationService.ts] (profit model,
    Nash benchmark, bisection, inverse and even-split solvers), of the
    scenario analysis of [getAiResponse] in [services/geminiService.ts], and
    of the pure parts of [App.tsx] and of the dashboard and summary
    components (session parameters, latest offers, acceptance, chart data).

    Numbers.  The source computes with JavaScript [number]s.  They are
    embedded as rationals [Q] with exact arithmetic: rounding error, NaN and
    the infinities are not modelled.  The only divisions whose divisor can be
    zero are the two of [nashBargainingSolution] (by [p] and by [2 * (p + c)]);
    every other division is guarded by the code itself.  Where a property
    turns on the rounding itself, the profit model is embedded a second time
    over binary64 floating-point numbers, the [number]s of the source, in
    the module [Double]. *)

From Stdlib Require Import QArith Qabs Qround Bool ZArith Lia Lqa.
From Stdlib Require Import Qpower List String.
From Stdlib Require PrimFloat.
Import ListNotations.

Local Open Scope Q_scope.

(** ** JavaScript number operations *)

Module Js.

(** [x < y] on numbers. *)
Definition ltb (x y : Q) : bool := negb (Qle_bool y x).

(** [x <= y] on numbers. *)
Definition leb (x y : Q) : bool := Qle_bool x y.

(** [Math.abs]. *)
Definition Math_abs (x : Q) : Q := Qabs x.

(** [Math.round]: the nearest integer, a tie going up. *)
Definition Math_round (x : Q) : Q := inject_Z (Qfloor (x + (1 # 2))).

(** Truthiness of a [number | null] as tested by [v ? .. : ..]:
    [null] and [0] are falsy. *)
Definition truthy (v : option Q) : option Q :=
  match v with
  | Some x => if Qeq_bool x 0 then None else Some x
  | None => None
  end.

End Js.

(** ** types.ts *)

Module Offer.
Record t : Set := mk { w : Q; q : Q }.
End Offer.

Module NegotiationParams.
Record t : Set := mk { c : Q; p : Q; demand_min : Q; demand_max : Q }.
End NegotiationParams.

Module ProfitCalcs.
Record t : Set := mk { supplier_profit : Q; retailer_profit : Q; total_profit : Q }.
End ProfitCalcs.

Module NashSolution.
Record t : Set := mk {
  order_quantity : Q;
  wholesale_price : Q;
  retailer_profit : Q;
  supplier_profit : Q;
  total_profit : Q }.
End NashSolution.

(** The anonymous type [{w?: number, q?: number}] of [lastUserOffer]. *)
Module LastUserOffer.
Record t : Set := mk { w : option Q; q : option Q }.
End LastUserOffer.

(** [Message.sender]. *)
Inductive Sender : Set := user | ai.

(** ** constants.ts *)

Definition INITIAL_PARAMS : NegotiationParams.t :=
  NegotiationParams.mk 3 10 0 100.

(** ** services/negotiationService.ts *)

(** E[min(q, D)] for D uniform on [demand_min, demand_max]. *)
Definition expectedMinQuantityDemand (q : Q) (params : NegotiationParams.t) : Q :=
  let demand_min := NegotiationParams.demand_min params in
  let demand_max := NegotiationParams.demand_max params in
  let demand_range := demand_max - demand_min in
  if Js.leb q demand_min then q
  else if Js.leb demand_max q then (demand_min + demand_max) / 2
  else
    let integral_part1 := (q * q - demand_min * demand_min) / 2 in
    let integral_part2 := q * (demand_max - q) in
    (integral_part1 + integral_part2) / demand_range.

Definition calculateProfits (w q : Q) (params : NegotiationParams.t) : ProfitCalcs.t :=
  let expected_sales := expectedMinQuantityDemand q params in
  let supplier_profit := w * expected_sales - NegotiationParams.c params * q in
  let retailer_profit := (NegotiationParams.p params - w) * expected_sales in
  ProfitCalcs.mk supplier_profit retailer_profit (supplier_profit + retailer_profit).

Definition nashBargainingSolution (params : NegotiationParams.t) : NashSolution.t :=
  let p := NegotiationParams.p params in
  let c := NegotiationParams.c params in
  let demand_max := NegotiationParams.demand_max params in
  let demand_min := NegotiationParams.demand_min params in
  let demand_range := demand_max - demand_min in
  let q_star_float := demand_range * (p - c) / p in
  let q_star := Js.Math_round q_star_float in
  let w_star := p * (p + 3 * c) / (2 * (p + c)) in
  let profits := calculateProfits w_star q_star params in
  NashSolution.mk q_star w_star
    (ProfitCalcs.retailer_profit profits)
    (ProfitCalcs.supplier_profit profits)
    (ProfitCalcs.total_profit profits).

(** The [for] loop of [bisection]: [max_iter], a count of iterations, is the
    number of iterations left; [c] is the variable declared before the loop
    and returned after it. *)
Fixpoint bisection_loop {T : Type} (func : Q -> T -> Q) (context : T)
    (tol : Q) (max_iter : nat) (a b f_a c : Q) : Q :=
  match max_iter with
  | O => c
  | S rest =>
      let c := (a + b) / 2 in
      let f_c := func c context in
      if Js.ltb (Js.Math_abs f_c) tol || Js.ltb ((b - a) / 2) tol then c
      else if Js.ltb (f_a * f_c) 0
           then bisection_loop func context tol rest a c f_a c
           else bisection_loop func context tol rest c b f_c c
  end.

(** [null] is [None]. *)
Definition bisection {T : Type} (func : Q -> T -> Q) (context : T)
    (a b tol : Q) (max_iter : nat) : option Q :=
  let f_a := func a context in
  if Js.leb 0 (f_a * func b context) then None
  else
    let c := a in
    Some (bisection_loop func context tol max_iter a b f_a c).

(** The default arguments [tol = 1e-5] and [max_iter = 100]. *)
Definition default_tol : Q := 1 # 100000.
Definition default_max_iter : nat := 100.

(** The arrow function [profitDifference] of [findQForTargetRetailerProfit];
    [bisection] hands it the context [{}], which it ignores. *)
Definition profitDifference (w targetProfit : Q) (params : NegotiationParams.t)
    (q : Q) (_ : unit) : Q :=
  ProfitCalcs.retailer_profit (calculateProfits w q params) - targetProfit.

Definition findQForTargetRetailerProfit (w targetProfit : Q)
    (params : NegotiationParams.t) : option Q :=
  let p := NegotiationParams.p params in
  if Js.leb p w then
    (if Js.leb targetProfit 0 then Some 0 else None)
  else
    match bisection (profitDifference w targetProfit params) tt
            (1 # 1000000) (NegotiationParams.demand_max params * 2)
            default_tol default_max_iter with
    | None => None
    | Some q_float => Some (Js.Math_round q_float)
    end.

Definition findWForTargetRetailerProfit (q targetProfit : Q)
    (params : NegotiationParams.t) : option Q :=
  let p := NegotiationParams.p params in
  let c := NegotiationParams.c params in
  if Js.ltb 0 targetProfit && Js.leb q 0 then None
  else if Js.leb targetProfit 0 && Js.leb q 0 then Some p
  else
    let expected_sales := expectedMinQuantityDemand q params in
    if Js.leb expected_sales 0 then None
    else
      let w := p - targetProfit / expected_sales in
      if Js.ltb w c then None else Some w.

(** ** services/geminiService.ts: the scenario analysis of [getAiResponse]

    [getAiResponse] appends to the system instruction a block
    "[CONTEXT FOR YOUR NEXT RESPONSE]" that names the scenario and the
    mandatory action, with the numbers the reply has to use.  The block is
    embedded as a value: the scenario number and a [Decision] holding the
    numbers that the mandatory action interpolates, before [toFixed] formats
    them. *)

Inductive Decision : Set :=
| Accept (offer : Offer.t)
    (* scenario 1, favorable: repeat the offer back *)
| CounterPrice (q newW : Q)
    (* scenarios 1 and 3: keep their q, propose newW *)
| CounterQuantity (w newQ : Q)
    (* scenario 2: keep their w, propose newQ *)
| RejectAndReinitiate (nash_w nash_q : Q)
    (* re-propose the initial optimal offer *)
| ConditionalOffer (nash_w nash_q : Q)
    (w_for_max_price : option Q) (q_for_max_price : Q)
    (w_for_min_q : Q) (q_for_min_w : option Q).
    (* scenario 4; [None] is printed as N/A *)

Record AnalysisContext : Set := mkContext { scenario : nat; action : Decision }.

(** [hasValidW] and [w!] in one: the field when it is defined and positive. *)
Definition validField (x : option Q) : option Q :=
  match x with
  | Some v => if Js.ltb 0 v then Some v else None
  | None => None
  end.

(** The body of [if (lastUserMessage.sender === 'user')]. *)
Definition analyseOffer (params : NegotiationParams.t) (nash : NashSolution.t)
    (lastUserOffer : LastUserOffer.t) : AnalysisContext :=
  let w := LastUserOffer.w lastUserOffer in
  let q := LastUserOffer.q lastUserOffer in
  let targetRetailerProfit := NashSolution.retailer_profit nash in
  let reinitiate :=
    RejectAndReinitiate (NashSolution.wholesale_price nash)
                        (NashSolution.order_quantity nash) in
  match validField w, validField q with
  | Some w, Some q =>
      (* SCENARIO 1: Full Offer (w and q) *)
      let offer := Offer.mk w q in
      let profits := calculateProfits (Offer.w offer) (Offer.q offer) params in
      let newW := findWForTargetRetailerProfit (Offer.q offer) targetRetailerProfit params in
      let isFavorable :=
        Js.leb (NashSolution.retailer_profit nash) (ProfitCalcs.retailer_profit profits) in
      mkContext 1
        (if isFavorable then Accept offer
         else match newW with
              | Some newW => CounterPrice (Offer.q offer) newW
              | None => reinitiate
              end)
  | Some w, None =>
      (* SCENARIO 2: Partial Offer (w only) *)
      let newQ := findQForTargetRetailerProfit w targetRetailerProfit params in
      mkContext 2
        match newQ with
        | Some newQ => CounterQuantity w newQ
        | None => reinitiate
        end
  | None, Some q =>
      (* SCENARIO 3: Partial Offer (q only) *)
      let newW := findWForTargetRetailerProfit q targetRetailerProfit params in
      mkContext 3
        match newW with
        | Some newW => CounterPrice q newW
        | None => reinitiate
        end
  | None, None =>
      (* SCENARIO 4: No offer *)
      let q_for_max_price := NegotiationParams.demand_max params in
      let w_for_max_price :=
        findWForTargetRetailerProfit q_for_max_price targetRetailerProfit params in
      let w_for_min_q := NegotiationParams.c params + (1 # 100) in
      let q_for_min_w :=
        findQForTargetRetailerProfit w_for_min_q targetRetailerProfit params in
      mkContext 4
        (ConditionalOffer (NashSolution.wholesale_price nash)
                          (NashSolution.order_quantity nash)
                          (Js.truthy w_for_max_price) q_for_max_price
                          w_for_min_q (Js.truthy q_for_min_w))
  end.

(** The analysis is made only when the last message of the chat history is
    the user's; otherwise the system instruction stays as it is. *)
Definition getAiResponse_analysis (lastSender : Sender)
    (params : NegotiationParams.t) (nash : NashSolution.t)
    (lastUserOffer : LastUserOffer.t) : option AnalysisContext :=
  match lastSender with
  | user => Some (analyseOffer params nash lastUserOffer)
  | ai => None
  end.

(** The decision handed on for a user message. *)
Definition classify (lastUserOffer : LastUserOffer.t)
    (params : NegotiationParams.t) (nash : NashSolution.t) : Decision :=
  action (analyseOffer params nash lastUserOffer).

(** ** services/negotiationService.ts: the even-split solvers *)

(** The arrow function [profitDifference] of [optimalWForQ]. *)
Definition optimalWForQ_profitDifference (q : Q) (params : NegotiationParams.t)
    (w : Q) (_ : unit) : Q :=
  let profits := calculateProfits w q params in
  ProfitCalcs.supplier_profit profits - ProfitCalcs.retailer_profit profits.

Definition optimalWForQ (q : Q) (params : NegotiationParams.t) : option Q :=
  bisection (optimalWForQ_profitDifference q params) tt
    (NegotiationParams.c params) (NegotiationParams.p params)
    default_tol default_max_iter.



(** ** App.tsx *)

(** [array[index]] for an index that [Math.floor] produced: [undefined],
    here [None], outside the array. *)
Definition array_get {A : Type} (array : list A) (index : Z) : option A :=
  if (index <? 0)%Z then None else nth_error array (Z.to_nat index).

Definition C_VALUES : list Q := [3; 4; 5].
Definition P_VALUES : list Q := [10; 11; 12].

(** [generateNewParams]; [random1] and [random2] are the numbers the two
    calls of [Math.random()] return, in the order of the calls.  The result
    is [None] when a draw indexes outside its array, where the source would
    build parameters with an undefined field. *)
Definition generateNewParams (random1 random2 : Q) : option NegotiationParams.t :=
  let randomC :=
    array_get C_VALUES
      (Qfloor (random1 * inject_Z (Z.of_nat (List.length C_VALUES)))) in
  let randomP :=
    array_get P_VALUES
      (Qfloor (random2 * inject_Z (Z.of_nat (List.length P_VALUES)))) in
  match randomC, randomP with
  | Some randomC, Some randomP =>
      Some (NegotiationParams.mk randomC randomP
              (NegotiationParams.demand_min INITIAL_PARAMS)
              (NegotiationParams.demand_max INITIAL_PARAMS))
  | _, _ => None
  end.

Module Message.
Record t : Set := mk { id : Q; sender : Sender; text : string; offer : option Offer.t }.
End Message.

(** [messages.slice().reverse().find(m => m.sender === 'ai' && m.offer)?.offer || null] *)
Definition latestAiOffer (messages : list Message.t) : option Offer.t :=
  match List.find
          (fun m => match Message.sender m, Message.offer m with
                    | ai, Some _ => true
                    | _, _ => false
                    end)
          (List.rev messages) with
  | Some m => Message.offer m
  | None => None
  end.

(** [messages.slice().reverse().find(m => m.offer)?.offer || null] *)
Definition latestOffer (messages : list Message.t) : option Offer.t :=
  match List.find
          (fun m => match Message.offer m with Some _ => true | None => false end)
          (List.rev messages) with
  | Some m => Message.offer m
  | None => None
  end.

(** [addMessage]: the state update [prev => [...prev, message]]; [id] is
    the value of [Date.now() + Math.random()]. *)
Definition addMessage (id : Q) (sender : Sender) (text : string)
    (offer : option Offer.t) (prev : list Message.t) : list Message.t :=
  prev ++ [Message.mk id sender text offer].

(** The [profitCalcs] memo. *)
Definition profitCalcs (messages : list Message.t)
    (negotiationParams : NegotiationParams.t) : option ProfitCalcs.t :=
  match latestOffer messages with
  | None => None
  | Some latestOffer =>
      Some (calculateProfits (Offer.w latestOffer) (Offer.q latestOffer)
              negotiationParams)
  end.

(** The part of the component state that [handleAcceptOffer] reads and
    writes. *)
Record Negotiation : Set := mkNegotiation {
  messages : list Message.t;
  isConcluded : bool }.

Section Handlers.
(** The template string of [handleAcceptOffer], which formats the offer
    with [toFixed]. *)
Variable acceptanceText : Offer.t -> string.

Definition handleAcceptOffer (id : Q) (state : Negotiation) : Negotiation :=
  match latestAiOffer (messages state) with
  | None => state
  | Some latestAiOffer =>
      if isConcluded state then state
      else mkNegotiation
             (addMessage id user (acceptanceText latestAiOffer)
                (Some latestAiOffer) (messages state))
             true
  end.
End Handlers.

(** What [App] hands to [NegotiationSummary] when
    [isConcluded && latestOffer && profitCalcs] holds: the final offer and
    the final profits. *)
Definition summaryShown (state : Negotiation)
    (negotiationParams : NegotiationParams.t) : option (Offer.t * ProfitCalcs.t) :=
  if isConcluded state then
    match latestOffer (messages state), profitCalcs (messages state) negotiationParams with
    | Some finalOffer, Some finalProfits => Some (finalOffer, finalProfits)
    | _, _ => None
    end
  else None.

(** The validation of [handleSendOffer]: [true] when the handler returns
    without sending.  [w] and [q] are the results of [parseFloat] and
    [parseInt], [None] for NaN. *)
Definition handleSendOffer_rejects (w q : option Q)
    (negotiationParams : NegotiationParams.t) (isLoading isConcluded : bool) : bool :=
  match w, q with
  | Some w, Some q =>
      Js.ltb w (NegotiationParams.c negotiationParams) || Js.leb q 0
      || isLoading || isConcluded
  | _, _ => true
  end.

(** ** components/NegotiationDashboard.tsx and NegotiationSummary.tsx *)

(** [Math.min] of two numbers. *)
Definition Math_min (x y : Q) : Q := if Js.leb x y then x else y.

(** The [analysisOffer] memo; [w] and [q] are the results of [parseFloat]
    and [parseInt], [None] for NaN. *)
Definition analysisOffer (w q : option Q) (params : NegotiationParams.t)
    : option Offer.t :=
  match w, q with
  | Some w, Some q =>
      if Js.leb (NegotiationParams.c params) w && Js.ltb 0 q
      then Some (Offer.mk w q) else None
  | _, _ => None
  end.

Module ChartPoint.
Record t : Set := mk { demand : Q; supplierProfit : Q; retailerProfit : Q }.
End ChartPoint.

(** The loop [for (let d = 0; d <= 100; d += 5)] of [generateChartData],
    from the value [d] on, with [data] the points pushed so far; [fuel]
    bounds the number of tests of the loop condition. *)
Fixpoint generateChartData_loop (fuel : nat) (w q c p d : Q)
    (data : list ChartPoint.t) : list ChartPoint.t :=
  match fuel with
  | O => data
  | S fuel' =>
      if Js.leb d 100 then
        let sales := Math_min d q in
        let supplierProfit := w * sales - c * q in
        let retailerProfit := (p - w) * sales in
        generateChartData_loop fuel' w q c p (d + 5)
          (data ++ [ChartPoint.mk d supplierProfit retailerProfit])
      else data
  end.

(** The same function is defined in both components.  The loop leaves by
    its condition at the twenty-second test. *)
Definition generateChartData (w q c p : Q) : list ChartPoint.t :=
  generateChartData_loop 22 w q c p 0 [].

(** ** services/negotiationService.ts over binary64 numbers

    The profit model once more, with the arithmetic of the source: every
    operation rounds to the nearest binary64 number. *)

Module Double.
Import PrimFloat.
Local Open Scope float_scope.

Module NegotiationParams.
Record t : Set := mk { c : float; p : float; demand_min : float; demand_max : float }.
End NegotiationParams.

Module ProfitCalcs.
Record t : Set := mk {
  supplier_profit : float;
  retailer_profit : float;
  total_profit : float }.
End ProfitCalcs.

Definition INITIAL_PARAMS : NegotiationParams.t :=
  NegotiationParams.mk 3 10 0 100.

Definition expectedMinQuantityDemand (q : float) (params : NegotiationParams.t)
    : float :=
  let demand_min := NegotiationParams.demand_min params in
  let demand_max := NegotiationParams.demand_max params in
  let demand_range := demand_max - demand_min in
  if q <=? demand_min then q
  else if demand_max <=? q then (demand_min + demand_max) / 2
  else
    let integral_part1 := (q * q - demand_min * demand_min) / 2 in
    let integral_part2 := q * (demand_max - q) in
    (integral_part1 + integral_part2) / demand_range.

Definition calculateProfits (w q : float) (params : NegotiationParams.t)
    : ProfitCalcs.t :=
  let expected_sales := expectedMinQuantityDemand q params in
  let supplier_profit := w * expected_sales - NegotiationParams.c params * q in
  let retailer_profit := (NegotiationParams.p params - w) * expected_sales in
  ProfitCalcs.mk supplier_profit retailer_profit (supplier_profit + retailer_profit).

End Double.

(** ** Specification-side definitions *)

(** The piecewise expected sales as the specification words it: [E] is the
    expected sales of [q] under [params]. *)
Definition ExpectedSalesSpec (params : NegotiationParams.t) (q E : Q) : Prop :=
  let demandMin := NegotiationParams.demand_min params in
  let demandMax := NegotiationParams.demand_max params in
  (q <= demandMin -> E == q) /\
  (demandMax <= q -> E == (demandMin + demandMax) / 2) /\
  (demandMin < q -> q < demandMax ->
   E == ((q ^ 2 - demandMin ^ 2) / 2 + q * (demandMax - q)) / (demandMax - demandMin)).

(** The brackets of the bisection, without the cached value [f_a]: one
    halving keeps the half on which the sign changes, as the loop body does. *)
Section Brackets.
Context {T : Type} (func : Q -> T -> Q) (context : T).

Definition midpoint (bracket : Q * Q) : Q :=
  (fst bracket + snd bracket) / 2.

Definition width (bracket : Q * Q) : Q := snd bracket - fst bracket.

Definition halve (bracket : Q * Q) : Q * Q :=
  let c := midpoint bracket in
  if Js.ltb (func (fst bracket) context * func c context) 0
  then (fst bracket, c) else (c, snd bracket).

(** The bracket after [k] halvings. *)
Fixpoint nth_bracket (k : nat) (bracket : Q * Q) : Q * Q :=
  match k with
  | O => bracket
  | S k' => nth_bracket k' (halve bracket)
  end.

(** The stopping rule at a bracket: the function is within the tolerance
    at the midpoint, or the halved bracket is narrower than the tolerance. *)
Definition stops (tol : Q) (bracket : Q * Q) : Prop :=
  Qabs (func (midpoint bracket) context) < tol \/ width (halve bracket) < tol.
End Brackets.

(** A field that is present but not positive, read as absent: the reading
    the specification asks for. *)
Definition absentIfNonPositive (x : option Q) : option Q :=
  match x with
  | Some v => if Qle_bool v 0 then None else Some v
  | None => None
  end.

Definition readAsSpecified (offer : LastUserOffer.t) : LastUserOffer.t :=
  LastUserOffer.mk (absentIfNonPositive (LastUserOffer.w offer))
                   (absentIfNonPositive (LastUserOffer.q offer)).

(** The point that [generateChartData] pushes at the demand [d], and the
    demands it visits. *)
Definition chartPoint (w q c p d : Q) : ChartPoint.t :=
  ChartPoint.mk d (w * Math_min d q - c * q) ((p - w) * Math_min d q).

Definition chartDemands : list Q :=
  [0; 5; 10; 15; 20; 25; 30; 35; 40; 45; 50; 55; 60; 65; 70; 75; 80; 85; 90; 95; 100].

(** * Properties *)

(** ** Comparisons *)

Lemma leb_true x y : Js.leb x y = true <-> x <= y.
Proof. apply Qle_bool_iff. Qed.

Lemma leb_false x y : Js.leb x y = false <-> y < x.
Proof.
  unfold Js.leb. split; intro H.
  - apply Qnot_le_lt. intro Hle. apply Qle_bool_iff in Hle. congruence.
  - destruct (Qle_bool x y) eqn:E; [|reflexivity].
    apply Qle_bool_iff in E. exfalso. apply (Qlt_not_le _ _ H E).
Qed.

Lemma ltb_true x y : Js.ltb x y = true <-> x < y.
Proof.
  unfold Js.ltb. rewrite negb_true_iff. apply (leb_false y x).
Qed.

Lemma ltb_false x y : Js.ltb x y = false <-> y <= x.
Proof.
  unfold Js.ltb. rewrite negb_false_iff. apply (leb_true y x).
Qed.

(** Case analysis on every comparison of the goal. *)
Ltac js_cases :=
  repeat match goal with
  | |- context [Js.leb ?x ?y] =>
      let E := fresh "Hcmp" in
      destruct (Js.leb x y) eqn:E;
      [apply leb_true in E | apply leb_false in E]
  | |- context [Js.ltb ?x ?y] =>
      let E := fresh "Hcmp" in
      destruct (Js.ltb x y) eqn:E;
      [apply ltb_true in E | apply ltb_false in E]
  end; cbn [andb orb negb].

(** ** Math.round *)

Lemma Math_round_nearest (x : Q) :
  exists z : Z, Js.Math_round x = inject_Z z /\
                x - (1 # 2) < inject_Z z /\ inject_Z z <= x + (1 # 2).
Proof.
  exists (Qfloor (x + (1 # 2))). split; [reflexivity|].
  pose proof (Qfloor_le (x + (1 # 2))) as Hle.
  pose proof (Qlt_floor (x + (1 # 2))) as Hlt.
  rewrite inject_Z_plus in Hlt. change (inject_Z 1) with 1 in Hlt.
  generalize dependent (inject_Z (Qfloor (x + (1 # 2)))).
  intros r Hle Hlt. split; lra.
Qed.

(** ** ProfitModel *)

Lemma expected_sales_low q params :
  q <= NegotiationParams.demand_min params ->
  expectedMinQuantityDemand q params = q.
Proof.
  intro H. unfold expectedMinQuantityDemand.
  apply leb_true in H. rewrite H. reflexivity.
Qed.

Lemma expected_sales_high q params :
  NegotiationParams.demand_min params < q ->
  NegotiationParams.demand_max params <= q ->
  expectedMinQuantityDemand q params
  = (NegotiationParams.demand_min params + NegotiationParams.demand_max params) / 2.
Proof.
  intros H1 H2. unfold expectedMinQuantityDemand.
  apply leb_false in H1. apply leb_true in H2. rewrite H1, H2. reflexivity.
Qed.

Lemma expected_sales_mid q params :
  NegotiationParams.demand_min params < q ->
  q < NegotiationParams.demand_max params ->
  expectedMinQuantityDemand q params
  = ((q * q - NegotiationParams.demand_min params * NegotiationParams.demand_min params) / 2
     + q * (NegotiationParams.demand_max params - q))
    / (NegotiationParams.demand_max params - NegotiationParams.demand_min params).
Proof.
  intros H1 H2. unfold expectedMinQuantityDemand.
  apply leb_false in H1. apply leb_false in H2. rewrite H1, H2. reflexivity.
Qed.

Lemma expectedMinQuantityDemand_spec params q :
  NegotiationParams.demand_min params < NegotiationParams.demand_max params ->
  ExpectedSalesSpec params q (expectedMinQuantityDemand q params).
Proof.
  intro Hrange. unfold ExpectedSalesSpec. cbv zeta. repeat split.
  - intro H. rewrite expected_sales_low by assumption. reflexivity.
  - intro H. rewrite expected_sales_high by lra. reflexivity.
  - intros H1 H2. rewrite expected_sales_mid by assumption.
    change (q ^ 2) with (q * q).
    change (NegotiationParams.demand_min params ^ 2)
      with (NegotiationParams.demand_min params * NegotiationParams.demand_min params).
    reflexivity.
Qed.

(** C2: with [demandMin < demandMax], [calculateProfits] returns
    [supplier_profit = w*E - c*q] and [retailer_profit = (p - w)*E] where [E]
    is the piecewise expected sales of the specification; for quantities at or
    above [demandMax] the expected sales do not depend on the quantity, and
    for [q <= demandMin] the retailer profit is [(p - w)*q]. *)
Theorem calculateProfits_spec (params : NegotiationParams.t) (w q : Q) :
  NegotiationParams.demand_min params < NegotiationParams.demand_max params ->
  exists E : Q,
    ExpectedSalesSpec params q E /\
    ProfitCalcs.supplier_profit (calculateProfits w q params)
      == w * E - NegotiationParams.c params * q /\
    ProfitCalcs.retailer_profit (calculateProfits w q params)
      == (NegotiationParams.p params - w) * E /\
    (forall q' : Q,
        NegotiationParams.demand_max params <= q ->
        NegotiationParams.demand_max params <= q' ->
        expectedMinQuantityDemand q params == expectedMinQuantityDemand q' params) /\
    (q <= NegotiationParams.demand_min params ->
     ProfitCalcs.retailer_profit (calculateProfits w q params)
       == (NegotiationParams.p params - w) * q).
Proof.
  intro Hrange. exists (expectedMinQuantityDemand q params).
  split; [now apply expectedMinQuantityDemand_spec|].
  split; [reflexivity|]. split; [reflexivity|]. split.
  - intros q' Hq Hq'.
    rewrite (expected_sales_high q), (expected_sales_high q') by lra.
    reflexivity.
  - intro Hq. cbn. rewrite expected_sales_low by assumption. reflexivity.
Qed.

Lemma calculateProfits_spec_witness :
  exists E : Q,
    ExpectedSalesSpec INITIAL_PARAMS 70 E /\
    ProfitCalcs.retailer_profit (calculateProfits 9 70 INITIAL_PARAMS) == (10 - 9) * E.
Proof.
  destruct (calculateProfits_spec INITIAL_PARAMS 9 70) as (E & HE & _ & Hr & _).
  - reflexivity.
  - exists E. split; [exact HE | exact Hr].
Defined.

(** C10, as amended: in exact arithmetic the total profit does not depend on
    the wholesale price: for any two prices it is [p*E(q) - c*q]. *)
Theorem total_profit_independent_of_w (params : NegotiationParams.t) (q w1 w2 : Q) :
  ProfitCalcs.total_profit (calculateProfits w1 q params)
    == ProfitCalcs.total_profit (calculateProfits w2 q params) /\
  ProfitCalcs.total_profit (calculateProfits w1 q params)
    == NegotiationParams.p params * expectedMinQuantityDemand q params
       - NegotiationParams.c params * q.
Proof.
  cbn. split; ring.
Qed.

Section Binary64.
Import PrimFloat.
Local Open Scope float_scope.

(** C10, as stated, fails on the numbers of the code: with the initial
    parameters and [q = 1], the total profit that [calculateProfits] returns
    in binary64 arithmetic at [w = 3] is below the one at [w = 4.5], which is
    6.95; the two differ in the last place. *)
Lemma total_profit_depends_on_w_in_binary64 :
  (Double.ProfitCalcs.total_profit (Double.calculateProfits 3 1 Double.INITIAL_PARAMS)
   <? Double.ProfitCalcs.total_profit (Double.calculateProfits 4.5 1 Double.INITIAL_PARAMS))
  = true /\
  (Double.ProfitCalcs.total_profit (Double.calculateProfits 3 1 Double.INITIAL_PARAMS)
   =? Double.ProfitCalcs.total_profit (Double.calculateProfits 4.5 1 Double.INITIAL_PARAMS))
  = false /\
  (Double.ProfitCalcs.total_profit (Double.calculateProfits 4.5 1 Double.INITIAL_PARAMS)
   =? 695 / 100)
  = true.
Proof.
  repeat split; vm_compute; reflexivity.
Qed.

End Binary64.

(** ** NashSolver *)

(** C3: [nashBargainingSolution] returns the quantity
    [q_star = round((demandMax - demandMin) * (p - c) / p)], an integer nearest
    to that quotient, the unrounded price [w_star = p*(p + 3c) / (2*(p + c))],
    and the profits of [calculateProfits] at [w_star] and [q_star]; for
    [{c:3, p:10, demandMin:0, demandMax:100}] this is [q_star = 70] and
    [w_star = 190/26]. *)
Theorem nashBargainingSolution_closed_form (params : NegotiationParams.t) :
  let p := NegotiationParams.p params in
  let c := NegotiationParams.c params in
  let demand_range :=
    NegotiationParams.demand_max params - NegotiationParams.demand_min params in
  let nash := nashBargainingSolution params in
  let q_star := NashSolution.order_quantity nash in
  let w_star := NashSolution.wholesale_price nash in
  let profits := calculateProfits w_star q_star params in
  q_star = Js.Math_round (demand_range * (p - c) / p) /\
  (exists z : Z, q_star = inject_Z z /\
                 demand_range * (p - c) / p - (1 # 2) < inject_Z z /\
                 inject_Z z <= demand_range * (p - c) / p + (1 # 2)) /\
  w_star = p * (p + 3 * c) / (2 * (p + c)) /\
  NashSolution.retailer_profit nash = ProfitCalcs.retailer_profit profits /\
  NashSolution.supplier_profit nash = ProfitCalcs.supplier_profit profits /\
  NashSolution.total_profit nash = ProfitCalcs.total_profit profits /\
  NashSolution.order_quantity (nashBargainingSolution INITIAL_PARAMS) = 70 /\
  NashSolution.wholesale_price (nashBargainingSolution INITIAL_PARAMS) == 190 / 26.
Proof.
  cbv zeta. split; [reflexivity|]. split.
  - apply Math_round_nearest.
  - repeat split; reflexivity.
Qed.

(** ** InverseSolvers: the price for a target retailer profit *)

(** A quantity that is not positive has no positive expected sales, whatever
    the demand range. *)
Lemma expected_sales_nonpos q params :
  q <= 0 -> expectedMinQuantityDemand q params <= 0.
Proof.
  intro Hq. unfold expectedMinQuantityDemand.
  js_cases; [assumption | unfold Qdiv; change (/ 2) with (1 # 2); lra |].
  set (lo := NegotiationParams.demand_min params) in *.
  set (hi := NegotiationParams.demand_max params) in *.
  assert (Hnum : (q * q - lo * lo) * (1 # 2) + q * (hi - q) <= 0) by nra.
  assert (Hinv : 0 < / (hi - lo)) by (apply Qinv_lt_0_compat; lra).
  unfold Qdiv. change (/ 2) with (1 # 2). nra.
Qed.

Lemma findW_closed_form q targetProfit params :
  0 < q ->
  0 < expectedMinQuantityDemand q params ->
  findWForTargetRetailerProfit q targetProfit params
  = let w := NegotiationParams.p params
             - targetProfit / expectedMinQuantityDemand q params in
    if Js.ltb w (NegotiationParams.c params) then None else Some w.
Proof.
  intros Hq HE. unfold findWForTargetRetailerProfit. cbv zeta.
  apply leb_false in Hq. apply leb_false in HE. rewrite Hq, HE.
  rewrite !andb_false_r. reflexivity.
Qed.

(** C4: [findWForTargetRetailerProfit] returns [p] when [targetProfit <= 0]
    and [q <= 0]; none when [targetProfit > 0] and [q <= 0]; otherwise none
    when the expected sales [E] of [q] are not positive, and else the closed
    form [w = p - targetProfit/E] when [w >= c] and none when [w < c]; these
    three are the only cases of none. *)
Theorem findWForTargetRetailerProfit_cases
    (params : NegotiationParams.t) (q targetProfit : Q) :
  let p := NegotiationParams.p params in
  let c := NegotiationParams.c params in
  let E := expectedMinQuantityDemand q params in
  let w := p - targetProfit / E in
  (targetProfit <= 0 -> q <= 0 ->
   findWForTargetRetailerProfit q targetProfit params = Some p) /\
  (0 < targetProfit -> q <= 0 ->
   findWForTargetRetailerProfit q targetProfit params = None) /\
  (0 < q -> E <= 0 ->
   findWForTargetRetailerProfit q targetProfit params = None) /\
  (0 < q -> 0 < E -> c <= w ->
   findWForTargetRetailerProfit q targetProfit params = Some w) /\
  (0 < q -> 0 < E -> w < c ->
   findWForTargetRetailerProfit q targetProfit params = None) /\
  (findWForTargetRetailerProfit q targetProfit params = None <->
   (0 < targetProfit /\ q <= 0) \/
   (0 < q /\ E <= 0) \/
   (0 < q /\ 0 < E /\ w < c)).
Proof.
  cbv zeta. unfold findWForTargetRetailerProfit.
  repeat split; js_cases; intros; try lra; try reflexivity; try discriminate;
    try (intuition (try lra; try discriminate)).
Qed.

(** Evaluation of a closed comparison or equation between numbers. *)
Ltac qeval := vm_compute; first [reflexivity | discriminate | intuition discriminate].

Lemma findWForTargetRetailerProfit_cases_witness :
  findWForTargetRetailerProfit 0 0 INITIAL_PARAMS = Some 10 /\
  findWForTargetRetailerProfit 0 1 INITIAL_PARAMS = None /\
  findWForTargetRetailerProfit 5 1 (NegotiationParams.mk 3 10 (-10) 1) = None /\
  findWForTargetRetailerProfit 70 (245 # 2) INITIAL_PARAMS
    = Some (10 - (245 # 2) / expectedMinQuantityDemand 70 INITIAL_PARAMS) /\
  findWForTargetRetailerProfit 10 (245 # 2) INITIAL_PARAMS = None.
Proof.
  destruct (findWForTargetRetailerProfit_cases INITIAL_PARAMS 0 0)
    as (Hdegenerate & _).
  destruct (findWForTargetRetailerProfit_cases INITIAL_PARAMS 0 1)
    as (_ & Hunreachable & _).
  destruct (findWForTargetRetailerProfit_cases (NegotiationParams.mk 3 10 (-10) 1) 5 1)
    as (_ & _ & Hnosales & _).
  destruct (findWForTargetRetailerProfit_cases INITIAL_PARAMS 70 (245 # 2))
    as (_ & _ & _ & Hprice & _).
  destruct (findWForTargetRetailerProfit_cases INITIAL_PARAMS 10 (245 # 2))
    as (_ & _ & _ & _ & Hfloor & _).
  split; [apply Hdegenerate; qeval|].
  split; [apply Hunreachable; qeval|].
  split; [apply Hnosales; qeval|].
  split; [apply Hprice; qeval | apply Hfloor; qeval].
Defined.

(** C8: round trip.  When the expected sales of [q] are positive and
    [findWForTargetRetailerProfit] returns a price [w] for the target [T],
    then [w >= c] and the retailer profit of [calculateProfits] at [(w, q)]
    is [T]. *)
Theorem findW_round_trip (params : NegotiationParams.t) (q T w : Q) :
  0 < expectedMinQuantityDemand q params ->
  findWForTargetRetailerProfit q T params = Some w ->
  ProfitCalcs.retailer_profit (calculateProfits w q params) == T /\
  NegotiationParams.c params <= w.
Proof.
  intros HE Hfind.
  assert (Hq : 0 < q).
  { apply Qnot_le_lt. intro Hle.
    pose proof (expected_sales_nonpos q params Hle). lra. }
  rewrite findW_closed_form in Hfind by assumption. cbv zeta in Hfind.
  destruct (Js.ltb _ _) eqn:Hfloor in Hfind; [discriminate|].
  injection Hfind as <-. apply ltb_false in Hfloor.
  split; [|exact Hfloor].
  cbn. field. lra.
Qed.

Lemma findW_round_trip_witness :
  ProfitCalcs.retailer_profit
    (calculateProfits (95 # 13) 70 INITIAL_PARAMS) == 245 # 2 /\
  NegotiationParams.c INITIAL_PARAMS <= 95 # 13.
Proof.
  assert (Hw : exists w, findWForTargetRetailerProfit 70 (245 # 2) INITIAL_PARAMS = Some w
                         /\ w == 95 # 13).
  { eexists. split; [vm_compute; reflexivity | reflexivity]. }
  destruct Hw as (w & Hfind & Hw).
  destruct (findW_round_trip INITIAL_PARAMS 70 (245 # 2) w) as [Hr Hc].
  - reflexivity.
  - exact Hfind.
  - split.
    + cbn in *. rewrite <- Hw. exact Hr.
    + rewrite <- Hw. exact Hc.
Defined.

(** ** RootFinder *)

Section Bisection.
Context {T : Type} (func : Q -> T -> Q) (context : T) (tol : Q).

Lemma width_halve (bracket : Q * Q) :
  width (halve func context bracket) == width bracket / 2.
Proof.
  destruct bracket as [a b]. unfold halve, width, midpoint. cbn [fst snd].
  destruct (Js.ltb _ _); cbn [fst snd]; field.
Qed.

(** The test of the loop body is the stopping rule. *)
Lemma loop_test_stops (a b : Q) :
  Js.ltb (Js.Math_abs (func ((a + b) / 2) context)) tol
  || Js.ltb ((b - a) / 2) tol = true
  <-> stops func context tol (a, b).
Proof.
  unfold stops. rewrite width_halve. unfold width, midpoint. cbn [fst snd].
  rewrite orb_true_iff, !ltb_true. reflexivity.
Qed.

(** The loop, entered with the cached [f_a = func a], returns the midpoint
    of the first bracket at which the stopping rule holds, and of the last
    bracket it reaches when the rule holds at none. *)
Lemma bisection_loop_midpoint (m : nat) :
  forall a b c0 : Q,
  exists k : nat,
    (k <= m)%nat /\
    bisection_loop func context tol (S m) a b (func a context) c0
    = midpoint (nth_bracket func context k (a, b)) /\
    (forall j : nat, (j < k)%nat ->
                     ~ stops func context tol (nth_bracket func context j (a, b))) /\
    (stops func context tol (nth_bracket func context k (a, b)) \/ k = m).
Proof.
  induction m as [|m IH]; intros a b c0.
  - exists 0%nat. split; [lia|]. split.
    + cbn. destruct (_ || _); [reflexivity|].
      destruct (Js.ltb _ _); reflexivity.
    + split; [intros j Hj; lia | right; reflexivity].
  - change (bisection_loop func context tol (S (S m)) a b (func a context) c0)
      with (let c := (a + b) / 2 in
            let f_c := func c context in
            if Js.ltb (Js.Math_abs f_c) tol || Js.ltb ((b - a) / 2) tol then c
            else if Js.ltb (func a context * f_c) 0
                 then bisection_loop func context tol (S m) a c (func a context) c
                 else bisection_loop func context tol (S m) c b f_c c).
    cbv zeta.
    destruct (Js.ltb (Js.Math_abs _) tol || Js.ltb ((b - a) / 2) tol) eqn:Htest.
    + exists 0%nat. split; [lia|]. split; [reflexivity|].
      split; [intros j Hj; lia|]. left. apply loop_test_stops. exact Htest.
    + assert (Hnot : ~ stops func context tol (a, b)).
      { intro Hs. apply loop_test_stops in Hs. congruence. }
      assert (Hnext :
        exists a' b', halve func context (a, b) = (a', b') /\
          (if Js.ltb (func a context * func ((a + b) / 2) context) 0
           then bisection_loop func context tol (S m) a ((a + b) / 2)
                  (func a context) ((a + b) / 2)
           else bisection_loop func context tol (S m) ((a + b) / 2) b
                  (func ((a + b) / 2) context) ((a + b) / 2))
          = bisection_loop func context tol (S m) a' b' (func a' context)
              ((a + b) / 2)).
      { unfold halve, midpoint. cbn [fst snd].
        destruct (Js.ltb _ 0); eexists; eexists; split; reflexivity. }
      destruct Hnext as (a' & b' & Hhalve & ->).
      destruct (IH a' b' ((a + b) / 2)) as (k & Hk & Hres & Hbefore & Hlast).
      exists (S k). split; [lia|]. cbn [nth_bracket]. rewrite Hhalve.
      split; [exact Hres|]. split.
      * intros [|j] Hj; [exact Hnot|].
        cbn [nth_bracket]. rewrite Hhalve. apply Hbefore. lia.
      * destruct Hlast as [Hs | ->]; [left; exact Hs | right; reflexivity].
Qed.

Lemma bisection_none (a b : Q) (max_iter : nat) :
  bisection func context a b tol max_iter = None
  <-> 0 <= func a context * func b context.
Proof.
  unfold bisection. cbv zeta. js_cases; split; intro H; try lra;
    try reflexivity; try discriminate.
Qed.

Lemma bisection_some (a b : Q) (max_iter : nat) :
  func a context * func b context < 0 ->
  bisection func context a b tol max_iter
  = Some (bisection_loop func context tol max_iter a b (func a context) a).
Proof.
  intro H. unfold bisection. cbv zeta.
  apply leb_false in H. rewrite H. reflexivity.
Qed.

(** With at least one iteration, a root returned is the midpoint of some
    bracket of the halving. *)
Lemma bisection_midpoint (a b : Q) (max_iter : nat) (root : Q) :
  (0 < max_iter)%nat ->
  bisection func context a b tol max_iter = Some root ->
  exists k : nat, root = midpoint (nth_bracket func context k (a, b)).
Proof.
  intros Hpos Hb.
  assert (Hsign : func a context * func b context < 0).
  { apply Qnot_le_lt. intro Hle. apply bisection_none with (max_iter := max_iter) in Hle.
    congruence. }
  rewrite bisection_some in Hb by exact Hsign.
  destruct max_iter as [|m]; [lia|].
  destruct (bisection_loop_midpoint m a b a) as (k & _ & Hres & _).
  exists k. congruence.
Qed.

(** Halving keeps an ordered bracket ordered and inside the first one. *)
Lemma nth_bracket_ordered (k : nat) :
  forall a b : Q,
    a < b ->
    a <= fst (nth_bracket func context k (a, b)) /\
    fst (nth_bracket func context k (a, b)) < snd (nth_bracket func context k (a, b)) /\
    snd (nth_bracket func context k (a, b)) <= b.
Proof.
  induction k as [|k IH]; intros a b Hab; cbn [nth_bracket fst snd].
  - lra.
  - assert (Hmid : a < (a + b) / 2 /\ (a + b) / 2 < b).
    { unfold Qdiv. change (/ 2) with (1 # 2). lra. }
    unfold halve, midpoint. cbn [fst snd].
    destruct (Js.ltb _ 0).
    + destruct (IH a ((a + b) / 2)) as (H1 & H2 & H3); [lra|].
      repeat split; try assumption. lra.
    + destruct (IH ((a + b) / 2) b) as (H1 & H2 & H3); [lra|].
      repeat split; try assumption. lra.
Qed.

(** Halving never leaves an interval that holds both ends, in whatever
    order the ends come. *)
Lemma nth_bracket_between (lo hi : Q) (k : nat) :
  forall a b : Q,
    lo <= a <= hi -> lo <= b <= hi ->
    lo <= fst (nth_bracket func context k (a, b)) <= hi /\
    lo <= snd (nth_bracket func context k (a, b)) <= hi.
Proof.
  induction k as [|k IH]; intros a b Ha Hb; cbn [nth_bracket fst snd].
  - split; assumption.
  - assert (Hmid : lo <= (a + b) / 2 <= hi).
    { unfold Qdiv. change (/ 2) with (1 # 2). lra. }
    unfold halve, midpoint. cbn [fst snd].
    destruct (Js.ltb _ 0); apply IH; assumption.
Qed.

Lemma midpoint_between (lo hi : Q) (k : nat) (a b : Q) :
  lo <= a <= hi -> lo <= b <= hi ->
  lo <= midpoint (nth_bracket func context k (a, b)) <= hi.
Proof.
  intros Ha Hb. destruct (nth_bracket_between lo hi k a b Ha Hb) as [H1 H2].
  unfold midpoint, Qdiv. change (/ 2) with (1 # 2). lra.
Qed.

Lemma midpoint_inside (k : nat) (a b : Q) :
  a < b ->
  a < midpoint (nth_bracket func context k (a, b)) /\
  midpoint (nth_bracket func context k (a, b)) < b.
Proof.
  intro Hab. destruct (nth_bracket_ordered k a b Hab) as (H1 & H2 & H3).
  unfold midpoint, Qdiv. change (/ 2) with (1 # 2). lra.
Qed.
End Bisection.

(** C6, as amended: [bisection] returns null exactly when
    [f(a)*f(b) >= 0].  When [f(a)*f(b) < 0] it returns a number: with
    [max_iter = 0] the loop body never runs and the number is [a]; with
    [max_iter >= 1] it is the midpoint of the bracket reached after [k]
    halvings, [k < max_iter], where [k] is the first index at which
    [|f(mid)| < tol] or the halved bracket, of width [(b - a)/2], is narrower
    than [tol], and the last index [max_iter - 1] when there is none. *)
Theorem bisection_result {T : Type} (func : Q -> T -> Q) (context : T)
    (a b tol : Q) (max_iter : nat) :
  (bisection func context a b tol max_iter = None
   <-> 0 <= func a context * func b context) /\
  (func a context * func b context < 0 ->
   (max_iter = 0%nat -> bisection func context a b tol max_iter = Some a) /\
   ((0 < max_iter)%nat ->
    exists k : nat,
      (k < max_iter)%nat /\
      bisection func context a b tol max_iter
      = Some (midpoint (nth_bracket func context k (a, b))) /\
      (forall j : nat, (j < k)%nat ->
                       ~ stops func context tol (nth_bracket func context j (a, b))) /\
      (stops func context tol (nth_bracket func context k (a, b))
       \/ S k = max_iter))).
Proof.
  split; [apply bisection_none|].
  intro Hsign. rewrite bisection_some by assumption. split.
  - intros ->. reflexivity.
  - intro Hpos. destruct max_iter as [|m]; [lia|].
    destruct (bisection_loop_midpoint func context tol m a b a)
      as (k & Hk & Hres & Hbefore & Hlast).
    exists k. split; [lia|]. split; [now rewrite Hres|].
    split; [exact Hbefore|].
    destruct Hlast as [Hs | ->]; [left; exact Hs | right; reflexivity].
Qed.

Lemma bisection_result_witness :
  exists k : nat,
    (k < 100)%nat /\
    bisection (fun (x : Q) (_ : unit) => x - (1 # 3)) tt 0 1 (1 # 10) 100
    = Some (midpoint (nth_bracket (fun (x : Q) (_ : unit) => x - (1 # 3)) tt k (0, 1))).
Proof.
  destruct (bisection_result (fun (x : Q) (_ : unit) => x - (1 # 3)) tt
              0 1 (1 # 10) 100) as [_ Hsome].
  destruct Hsome as [_ Hloop]; [qeval|].
  destruct Hloop as (k & Hk & Hres & _); [lia|].
  exists k. split; [exact Hk | exact Hres].
Defined.

(** C6, as stated, fails for [max_iter = 0]: the sign condition holds and
    the number returned is the left end [a = 0], which is the midpoint of no
    bracket of the halving. *)
Lemma bisection_zero_iterations_not_midpoint :
  (0 - (1 # 3)) * (1 - (1 # 3)) < 0 /\
  bisection (fun (x : Q) (_ : unit) => x - (1 # 3)) tt 0 1 default_tol 0 = Some 0 /\
  forall k : nat,
    ~ midpoint (nth_bracket (fun (x : Q) (_ : unit) => x - (1 # 3)) tt k (0, 1)) == 0.
Proof.
  split; [reflexivity|]. split; [reflexivity|].
  intros k Heq.
  destruct (midpoint_inside (fun (x : Q) (_ : unit) => x - (1 # 3)) tt k 0 1)
    as [Hlow _]; [reflexivity|].
  rewrite Heq in Hlow. discriminate Hlow.
Qed.

(** ** InverseSolvers: the quantity for a target retailer profit *)

(** C5: for [w >= p], [findQForTargetRetailerProfit] returns [0] when
    [targetProfit <= 0] and none otherwise; for [w < p] it bisects
    [g(q) = retailer_profit(w, q) - targetProfit] over [1e-6, 2*demand_max]
    with the default tolerance and iteration bound, rounds the root with
    [Math.round], and returns none exactly when [g] has no sign change
    between the two ends. *)
Theorem findQForTargetRetailerProfit_cases
    (params : NegotiationParams.t) (w targetProfit : Q) :
  let p := NegotiationParams.p params in
  let g := fun (q : Q) (_ : unit) =>
             ProfitCalcs.retailer_profit (calculateProfits w q params) - targetProfit in
  let epsilon := 1 # 1000000 in
  let upper := NegotiationParams.demand_max params * 2 in
  (p <= w -> targetProfit <= 0 ->
   findQForTargetRetailerProfit w targetProfit params = Some 0) /\
  (p <= w -> 0 < targetProfit ->
   findQForTargetRetailerProfit w targetProfit params = None) /\
  (w < p ->
   findQForTargetRetailerProfit w targetProfit params
   = option_map Js.Math_round
       (bisection g tt epsilon upper default_tol default_max_iter)) /\
  (w < p ->
   (findQForTargetRetailerProfit w targetProfit params = None
    <-> 0 <= g epsilon tt * g upper tt)).
Proof.
  cbv zeta. unfold findQForTargetRetailerProfit. cbv zeta.
  fold (profitDifference w targetProfit params).
  split; [|split; [|split]].
  - intros H1 H2. apply leb_true in H1, H2. rewrite H1, H2. reflexivity.
  - intros H1 H2. apply leb_true in H1. apply leb_false in H2.
    rewrite H1, H2. reflexivity.
  - intro H. apply leb_false in H. rewrite H.
    destruct (bisection _ _ _ _ _ _); reflexivity.
  - intro H. apply leb_false in H. rewrite H.
    pose proof (bisection_none (profitDifference w targetProfit params) tt
                  default_tol (1 # 1000000)
                  (NegotiationParams.demand_max params * 2) default_max_iter)
      as [Hnone Hsign].
    destruct (bisection _ _ _ _ _ _) as [q_float|]; split; intro Hx.
    + discriminate Hx.
    + specialize (Hsign Hx). discriminate Hsign.
    + exact (Hnone eq_refl).
    + reflexivity.
Qed.

Lemma findQForTargetRetailerProfit_cases_witness :
  findQForTargetRetailerProfit 10 0 INITIAL_PARAMS = Some 0 /\
  findQForTargetRetailerProfit 10 1 INITIAL_PARAMS = None /\
  findQForTargetRetailerProfit 3 (350 - (1 # 1000000)) INITIAL_PARAMS = Some 100 /\
  findQForTargetRetailerProfit 3 350 INITIAL_PARAMS = None.
Proof.
  destruct (findQForTargetRetailerProfit_cases INITIAL_PARAMS 10 0)
    as (Hzero & _).
  destruct (findQForTargetRetailerProfit_cases INITIAL_PARAMS 10 1)
    as (_ & Hnone & _).
  destruct (findQForTargetRetailerProfit_cases INITIAL_PARAMS 3
              (350 - (1 # 1000000))) as (_ & _ & Hbisect & _).
  destruct (findQForTargetRetailerProfit_cases INITIAL_PARAMS 3 350)
    as (_ & _ & _ & Hsign).
  split; [apply Hzero; qeval|].
  split; [apply Hnone; qeval|].
  split.
  - rewrite Hbisect by qeval. vm_compute. reflexivity.
  - apply Hsign; qeval.
Defined.

(** ** ScenarioPolicy *)

Lemma validField_some (x : option Q) (v : Q) :
  validField x = Some v <-> x = Some v /\ 0 < v.
Proof.
  unfold validField. destruct x as [u|].
  - destruct (Js.ltb 0 u) eqn:Hu.
    + apply ltb_true in Hu. split.
      * intros [= ->]. split; [reflexivity | exact Hu].
      * intros [[= ->] _]. reflexivity.
    + apply ltb_false in Hu. split; [discriminate|].
      intros [[= ->] Hv]. lra.
  - split; [discriminate | intros [[=] _]].
Qed.

Lemma validField_positive (v : Q) : 0 < v -> validField (Some v) = Some v.
Proof. intro H. apply validField_some. split; [reflexivity | exact H]. Qed.

Lemma validField_nonpositive (v : Q) : v <= 0 -> validField (Some v) = None.
Proof. intro H. unfold validField. apply ltb_false in H. now rewrite H. Qed.

(** The code's test [v > 0] reads a field exactly as the specification asks. *)
Lemma validField_absentIfNonPositive (x : option Q) :
  validField x = absentIfNonPositive x.
Proof.
  destruct x as [v|]; [|reflexivity].
  unfold validField, absentIfNonPositive, Js.ltb.
  destruct (Qle_bool v 0); reflexivity.
Qed.

Lemma Math_round_nonneg (x : Q) : 0 <= x -> 0 <= Js.Math_round x.
Proof.
  intro Hx. unfold Js.Math_round.
  change 0 with (inject_Z 0). rewrite <- Zle_Qle.
  change 0%Z with (Qfloor 0). apply Qfloor_resp_le. lra.
Qed.

(** A price found for a positive quantity respects the cost floor. *)
Lemma findW_floor (params : NegotiationParams.t) (q T w : Q) :
  0 < q ->
  findWForTargetRetailerProfit q T params = Some w ->
  NegotiationParams.c params <= w.
Proof.
  intros Hq. unfold findWForTargetRetailerProfit. cbv zeta.
  apply leb_false in Hq. rewrite Hq, !andb_false_r.
  destruct (Js.leb (expectedMinQuantityDemand q params) 0); [discriminate|].
  destruct (Js.ltb _ _) eqn:Hfloor; [discriminate|].
  intros [= <-]. apply ltb_false in Hfloor. exact Hfloor.
Qed.

Lemma default_max_iter_positive : (0 < default_max_iter)%nat.
Proof. unfold default_max_iter. lia. Qed.

(** A quantity found is a whole number, and not negative when
    [demand_max] is not. *)
Lemma findQ_result (params : NegotiationParams.t) (w T newQ : Q) :
  findQForTargetRetailerProfit w T params = Some newQ ->
  (exists z : Z, newQ = inject_Z z) /\
  (0 <= NegotiationParams.demand_max params -> 0 <= newQ).
Proof.
  unfold findQForTargetRetailerProfit. cbv zeta.
  destruct (Js.leb (NegotiationParams.p params) w).
  - destruct (Js.leb T 0); [|discriminate].
    intros [= <-]. split; [exists 0%Z; reflexivity | intros _; lra].
  - destruct (bisection _ _ _ _ _ _) as [q_float|] eqn:Hb; [|discriminate].
    intros [= <-]. split; [eexists; reflexivity|].
    intro Hmax. apply Math_round_nonneg.
    destruct (bisection_midpoint _ _ _ _ _ _ q_float default_max_iter_positive Hb)
      as [k ->].
    apply (midpoint_between _ _ 0
             ((1 # 1000000) + NegotiationParams.demand_max params * 2)); lra.
Qed.

(** What the analysis makes of a full offer. *)
Lemma classify_full_offer (params : NegotiationParams.t) (nash : NashSolution.t)
    (w q : Q) :
  0 < w -> 0 < q ->
  classify (LastUserOffer.mk (Some w) (Some q)) params nash
  = if Js.leb (NashSolution.retailer_profit nash)
              (ProfitCalcs.retailer_profit (calculateProfits w q params))
    then Accept (Offer.mk w q)
    else match findWForTargetRetailerProfit q (NashSolution.retailer_profit nash) params with
         | Some newW => CounterPrice q newW
         | None => RejectAndReinitiate (NashSolution.wholesale_price nash)
                                       (NashSolution.order_quantity nash)
         end.
Proof.
  intros Hw Hq. unfold classify, analyseOffer. cbv zeta.
  cbn [LastUserOffer.w LastUserOffer.q].
  rewrite (validField_positive w Hw), (validField_positive q Hq).
  reflexivity.
Qed.

(** C1, as amended: a price the procedure computes, the [newW] of a
    [CounterPrice], is never below [c]; the quantity of an [Accept] or of a
    [CounterPrice] is the offer's own, which is positive; an [Accept] repeats
    the offer's own positive price, whatever its relation to [c], and a full
    offer is accepted exactly when its retailer profit reaches the target; a
    [CounterQuantity] keeps the offer's positive price and proposes a whole
    number that is not negative when [demand_max] is not. *)
Theorem decision_bounds (params : NegotiationParams.t) (nash : NashSolution.t)
    (lastUserOffer : LastUserOffer.t) :
  match classify lastUserOffer params nash with
  | Accept offer =>
      LastUserOffer.w lastUserOffer = Some (Offer.w offer) /\
      LastUserOffer.q lastUserOffer = Some (Offer.q offer) /\
      0 < Offer.w offer /\ 0 < Offer.q offer /\
      NashSolution.retailer_profit nash
      <= ProfitCalcs.retailer_profit
           (calculateProfits (Offer.w offer) (Offer.q offer) params)
  | CounterPrice q newW =>
      LastUserOffer.q lastUserOffer = Some q /\ 0 < q /\
      NegotiationParams.c params <= newW
  | CounterQuantity w newQ =>
      LastUserOffer.w lastUserOffer = Some w /\ 0 < w /\
      (exists z : Z, newQ = inject_Z z) /\
      (0 <= NegotiationParams.demand_max params -> 0 <= newQ)
  | RejectAndReinitiate _ _ | ConditionalOffer _ _ _ _ _ _ => True
  end /\
  (forall w q : Q,
      0 < w -> 0 < q ->
      (classify (LastUserOffer.mk (Some w) (Some q)) params nash
       = Accept (Offer.mk w q)
       <-> NashSolution.retailer_profit nash
           <= ProfitCalcs.retailer_profit (calculateProfits w q params))).
Proof.
  split.
  2:{ intros w q Hw Hq. rewrite classify_full_offer by assumption.
      destruct (Js.leb _ _) eqn:Hfav.
      - apply leb_true in Hfav. split; [intros _; exact Hfav | reflexivity].
      - apply leb_false in Hfav. split; [|intro; lra].
        destruct (findWForTargetRetailerProfit _ _ _); discriminate. }
  unfold classify, analyseOffer. cbv zeta.
  destruct (validField (LastUserOffer.w lastUserOffer)) as [w|] eqn:Hw;
    destruct (validField (LastUserOffer.q lastUserOffer)) as [q|] eqn:Hq;
    cbn [action Offer.w Offer.q];
    try apply validField_some in Hw; try apply validField_some in Hq.
  - destruct Hw as [Hw Hwpos], Hq as [Hq Hqpos].
    destruct (Js.leb _ _) eqn:Hfav.
    + apply leb_true in Hfav. cbn [Offer.w Offer.q]. auto.
    + destruct (findWForTargetRetailerProfit _ _ _) as [newW|] eqn:Hfind; [|exact I].
      split; [exact Hq|]. split; [exact Hqpos|].
      exact (findW_floor _ _ _ _ Hqpos Hfind).
  - destruct Hw as [Hw Hwpos].
    destruct (findQForTargetRetailerProfit _ _ _) as [newQ|] eqn:Hfind; [|exact I].
    split; [exact Hw|]. split; [exact Hwpos|].
    exact (findQ_result _ _ _ _ Hfind).
  - destruct Hq as [Hq Hqpos].
    destruct (findWForTargetRetailerProfit _ _ _) as [newW|] eqn:Hfind; [|exact I].
    split; [exact Hq|]. split; [exact Hqpos|].
    exact (findW_floor _ _ _ _ Hqpos Hfind).
  - exact I.
Qed.

Lemma decision_bounds_witness :
  exists newW : Q,
    classify (LastUserOffer.mk (Some 9) (Some 70)) INITIAL_PARAMS
      (nashBargainingSolution INITIAL_PARAMS) = CounterPrice 70 newW /\
    NegotiationParams.c INITIAL_PARAMS <= newW /\
    ~ (NashSolution.retailer_profit (nashBargainingSolution INITIAL_PARAMS)
       <= ProfitCalcs.retailer_profit (calculateProfits 9 70 INITIAL_PARAMS)).
Proof.
  destruct (decision_bounds INITIAL_PARAMS (nashBargainingSolution INITIAL_PARAMS)
              (LastUserOffer.mk (Some 9) (Some 70))) as [Hbounds Haccept].
  assert (Hcounter : exists newW : Q,
             classify (LastUserOffer.mk (Some 9) (Some 70)) INITIAL_PARAMS
               (nashBargainingSolution INITIAL_PARAMS) = CounterPrice 70 newW).
  { eexists. vm_compute. reflexivity. }
  destruct Hcounter as [newW Hcounter]. rewrite Hcounter in Hbounds.
  exists newW. split; [exact Hcounter|]. split; [apply Hbounds|].
  intro Hfav. apply (Haccept 9 70) in Hfav; [|reflexivity|reflexivity].
  rewrite Hcounter in Hfav. discriminate Hfav.
Defined.

(** C1, as stated, fails twice.  A full offer priced below the production
    cost is accepted when the retailer's profit reaches the target: with the
    initial parameters, [w = 1 < c = 3] at [q = 70].  And a counter-quantity
    can be zero: with demand on [0, 2/5] the Nash quantity rounds to [0], the
    target profit is [0], and the price-only offer [w = 10 >= p] is countered
    with [q = 0]. *)
Lemma accept_below_cost_and_zero_counter_quantity :
  (0 < NegotiationParams.c INITIAL_PARAMS < NegotiationParams.p INITIAL_PARAMS /\
   NegotiationParams.demand_min INITIAL_PARAMS < NegotiationParams.demand_max INITIAL_PARAMS /\
   classify (LastUserOffer.mk (Some 1) (Some 70)) INITIAL_PARAMS
     (nashBargainingSolution INITIAL_PARAMS) = Accept (Offer.mk 1 70) /\
   Offer.w (Offer.mk 1 70) < NegotiationParams.c INITIAL_PARAMS) /\
  (let params := NegotiationParams.mk 3 10 0 (2 # 5) in
   0 < NegotiationParams.c params < NegotiationParams.p params /\
   NegotiationParams.demand_min params < NegotiationParams.demand_max params /\
   classify (LastUserOffer.mk (Some 10) None) params (nashBargainingSolution params)
   = CounterQuantity 10 0).
Proof.
  cbv zeta. repeat split.
Qed.

(** C7: a full offer, both fields present and positive, whose retailer
    profit is at least the Nash benchmark's, equality included, is accepted,
    and the [Accept] carries the offer as it came. *)
Theorem classify_accepts_favorable (params : NegotiationParams.t)
    (nash : NashSolution.t) (w q : Q) :
  0 < w -> 0 < q ->
  NashSolution.retailer_profit nash
  <= ProfitCalcs.retailer_profit (calculateProfits w q params) ->
  classify (LastUserOffer.mk (Some w) (Some q)) params nash = Accept (Offer.mk w q).
Proof.
  intros Hw Hq Hfav. rewrite classify_full_offer by assumption.
  apply leb_true in Hfav. rewrite Hfav. reflexivity.
Qed.

(** The Nash offer itself: its retailer profit equals the benchmark. *)
Lemma classify_accepts_favorable_witness :
  let nash := nashBargainingSolution INITIAL_PARAMS in
  ProfitCalcs.retailer_profit
    (calculateProfits (NashSolution.wholesale_price nash)
                      (NashSolution.order_quantity nash) INITIAL_PARAMS)
  = NashSolution.retailer_profit nash /\
  classify (LastUserOffer.mk (Some (NashSolution.wholesale_price nash))
                             (Some (NashSolution.order_quantity nash)))
           INITIAL_PARAMS nash
  = Accept (Offer.mk (NashSolution.wholesale_price nash)
                     (NashSolution.order_quantity nash)).
Proof.
  cbv zeta. split; [reflexivity|].
  apply (classify_accepts_favorable INITIAL_PARAMS
           (nashBargainingSolution INITIAL_PARAMS)); qeval.
Defined.

Lemma validField_idempotent (x : option Q) :
  validField (absentIfNonPositive x) = validField x.
Proof.
  rewrite <- validField_absentIfNonPositive.
  destruct x as [v|]; [|reflexivity].
  cbn [validField]. destruct (Js.ltb 0 v) eqn:Hv; [|reflexivity].
  cbn [validField]. now rewrite Hv.
Qed.

(** C9: a field that is present but not positive is treated as absent.  The
    analysis of any offer is the analysis of the offer with such fields
    removed; with [w <= 0] and [q > 0] it is the quantity-only scenario 3,
    with [q <= 0] and [w > 0] the price-only scenario 2, and with both
    fields non-positive scenario 4, no offer. *)
Theorem nonpositive_field_is_absent (params : NegotiationParams.t)
    (nash : NashSolution.t) :
  (forall offer : LastUserOffer.t,
      analyseOffer params nash offer
      = analyseOffer params nash (readAsSpecified offer)) /\
  (forall w q : Q,
      w <= 0 -> 0 < q ->
      analyseOffer params nash (LastUserOffer.mk (Some w) (Some q))
      = analyseOffer params nash (LastUserOffer.mk None (Some q)) /\
      scenario (analyseOffer params nash (LastUserOffer.mk (Some w) (Some q))) = 3%nat) /\
  (forall w q : Q,
      q <= 0 -> 0 < w ->
      analyseOffer params nash (LastUserOffer.mk (Some w) (Some q))
      = analyseOffer params nash (LastUserOffer.mk (Some w) None) /\
      scenario (analyseOffer params nash (LastUserOffer.mk (Some w) (Some q))) = 2%nat) /\
  (forall w q : Q,
      w <= 0 -> q <= 0 ->
      analyseOffer params nash (LastUserOffer.mk (Some w) (Some q))
      = analyseOffer params nash (LastUserOffer.mk None None) /\
      scenario (analyseOffer params nash (LastUserOffer.mk (Some w) (Some q))) = 4%nat).
Proof.
  split; [|split; [|split]].
  - intro offer. unfold analyseOffer, readAsSpecified. cbv zeta.
    cbn [LastUserOffer.w LastUserOffer.q].
    rewrite !validField_idempotent. reflexivity.
  - intros w q Hw Hq. unfold analyseOffer. cbv zeta.
    cbn [LastUserOffer.w LastUserOffer.q].
    rewrite (validField_nonpositive w Hw), (validField_positive q Hq).
    split; reflexivity.
  - intros w q Hq Hw. unfold analyseOffer. cbv zeta.
    cbn [LastUserOffer.w LastUserOffer.q].
    rewrite (validField_nonpositive q Hq), (validField_positive w Hw).
    split; reflexivity.
  - intros w q Hw Hq. unfold analyseOffer. cbv zeta.
    cbn [LastUserOffer.w LastUserOffer.q].
    rewrite (validField_nonpositive w Hw), (validField_nonpositive q Hq).
    split; reflexivity.
Qed.

Lemma nonpositive_field_is_absent_witness :
  let nash := nashBargainingSolution INITIAL_PARAMS in
  scenario (analyseOffer INITIAL_PARAMS nash (LastUserOffer.mk (Some 0) (Some 70))) = 3%nat /\
  scenario (analyseOffer INITIAL_PARAMS nash (LastUserOffer.mk (Some 7) (Some (-1)))) = 2%nat /\
  scenario (analyseOffer INITIAL_PARAMS nash (LastUserOffer.mk (Some (-7)) (Some 0))) = 4%nat.
Proof.
  cbv zeta.
  destruct (nonpositive_field_is_absent INITIAL_PARAMS
              (nashBargainingSolution INITIAL_PARAMS))
    as (_ & Hquantity & Hprice & Hnone).
  split; [apply Hquantity; qeval|].
  split; [apply Hprice; qeval | apply Hnone; qeval].
Defined.

(** * Further properties of the code *)

(** ** The expected sales *)

(** Numbers that are equal have equal expected sales. *)
Lemma expected_sales_proper (params : NegotiationParams.t) (q q' : Q) :
  q == q' ->
  expectedMinQuantityDemand q params == expectedMinQuantityDemand q' params.
Proof.
  intro Heq. unfold expectedMinQuantityDemand. cbv zeta.
  js_cases; try lra; try reflexivity.
  rewrite Heq. reflexivity.
Qed.

(** The numerator of the middle branch, with the halving written as a
    product. *)
Lemma expected_sales_mid_times_range q params :
  NegotiationParams.demand_min params < q ->
  q < NegotiationParams.demand_max params ->
  expectedMinQuantityDemand q params
  * (NegotiationParams.demand_max params - NegotiationParams.demand_min params)
  == (q * q - NegotiationParams.demand_min params * NegotiationParams.demand_min params)
     * (1 # 2)
     + q * (NegotiationParams.demand_max params - q).
Proof.
  intros H1 H2. rewrite expected_sales_mid by assumption. field. lra.
Qed.

Lemma expected_sales_upper q params :
  NegotiationParams.demand_min params < NegotiationParams.demand_max params ->
  expectedMinQuantityDemand q params <= q /\
  expectedMinQuantityDemand q params
  <= (NegotiationParams.demand_min params + NegotiationParams.demand_max params) * (1 # 2).
Proof.
  intro Hrange.
  destruct (Qlt_le_dec (NegotiationParams.demand_min params) q) as [Hlo|Hlo].
  - destruct (Qlt_le_dec q (NegotiationParams.demand_max params)) as [Hhi|Hhi].
    + pose proof (expected_sales_mid_times_range q params Hlo Hhi) as Hmid.
      set (E := expectedMinQuantityDemand q params) in *.
      set (lo := NegotiationParams.demand_min params) in *.
      set (hi := NegotiationParams.demand_max params) in *.
      split; nra.
    + rewrite expected_sales_high by assumption.
      unfold Qdiv. change (/ 2) with (1 # 2). split; lra.
  - rewrite expected_sales_low by assumption. split; lra.
Qed.

Lemma expected_sales_lower q params :
  NegotiationParams.demand_min params < NegotiationParams.demand_max params ->
  NegotiationParams.demand_min params < q ->
  NegotiationParams.demand_min params < expectedMinQuantityDemand q params.
Proof.
  intros Hrange Hlo.
  destruct (Qlt_le_dec q (NegotiationParams.demand_max params)) as [Hhi|Hhi].
  - pose proof (expected_sales_mid_times_range q params Hlo Hhi) as Hmid.
    set (E := expectedMinQuantityDemand q params) in *.
    set (lo := NegotiationParams.demand_min params) in *.
    set (hi := NegotiationParams.demand_max params) in *.
    nra.
  - rewrite expected_sales_high by assumption.
    unfold Qdiv. change (/ 2) with (1 # 2). lra.
Qed.

(** X1: when [demand_min < demand_max], the expected sales never exceed the
    quantity ordered nor the mean demand, and are never below the smaller of
    the quantity and [demand_min]. *)
Theorem expected_sales_bounds (params : NegotiationParams.t) (q : Q) :
  NegotiationParams.demand_min params < NegotiationParams.demand_max params ->
  expectedMinQuantityDemand q params <= q /\
  expectedMinQuantityDemand q params
  <= (NegotiationParams.demand_min params + NegotiationParams.demand_max params) / 2 /\
  (q <= NegotiationParams.demand_min params -> q <= expectedMinQuantityDemand q params) /\
  (NegotiationParams.demand_min params <= q ->
   NegotiationParams.demand_min params <= expectedMinQuantityDemand q params).
Proof.
  intro Hrange. destruct (expected_sales_upper q params Hrange) as [Hq Hmean].
  split; [exact Hq|]. split.
  - unfold Qdiv. change (/ 2) with (1 # 2). exact Hmean.
  - split.
    + intro Hlow. rewrite expected_sales_low by assumption. lra.
    + intro Hlo. destruct (Qlt_le_dec (NegotiationParams.demand_min params) q) as [H|H].
      * pose proof (expected_sales_lower q params Hrange H). lra.
      * rewrite expected_sales_low by assumption. exact Hlo.
Qed.

Lemma expected_sales_bounds_witness :
  expectedMinQuantityDemand 70 INITIAL_PARAMS <= 70 /\
  expectedMinQuantityDemand 70 INITIAL_PARAMS <= (0 + 100) / 2.
Proof.
  destruct (expected_sales_bounds INITIAL_PARAMS 70) as (H1 & H2 & _);
    [reflexivity|].
  split; [exact H1 | exact H2].
Defined.

Lemma expected_sales_nondecreasing (params : NegotiationParams.t) (q1 q2 : Q) :
  NegotiationParams.demand_min params < NegotiationParams.demand_max params ->
  q1 <= q2 ->
  expectedMinQuantityDemand q1 params <= expectedMinQuantityDemand q2 params.
Proof.
  intros Hrange Hle.
  destruct (Qlt_le_dec (NegotiationParams.demand_min params) q1) as [Hlo1|Hlo1].
  - destruct (Qlt_le_dec q2 (NegotiationParams.demand_max params)) as [Hhi2|Hhi2].
    + assert (Hlo2 : NegotiationParams.demand_min params < q2) by lra.
      assert (Hhi1 : q1 < NegotiationParams.demand_max params) by lra.
      pose proof (expected_sales_mid_times_range q1 params Hlo1 Hhi1) as Hm1.
      pose proof (expected_sales_mid_times_range q2 params Hlo2 Hhi2) as Hm2.
      set (E1 := expectedMinQuantityDemand q1 params) in *.
      set (E2 := expectedMinQuantityDemand q2 params) in *.
      set (lo := NegotiationParams.demand_min params) in *.
      set (hi := NegotiationParams.demand_max params) in *.
      assert (Hnum : 0 <= (q2 - q1) * (hi - q1 + (hi - q2))) by
        (apply Qmult_le_0_compat; lra).
      nra.
    + rewrite (expected_sales_high q2) by lra.
      destruct (expected_sales_upper q1 params Hrange) as [_ Hmean].
      unfold Qdiv. change (/ 2) with (1 # 2). exact Hmean.
  - rewrite (expected_sales_low q1) by assumption.
    destruct (Qlt_le_dec (NegotiationParams.demand_min params) q2) as [Hlo2|Hlo2].
    + pose proof (expected_sales_lower q2 params Hrange Hlo2). lra.
    + rewrite (expected_sales_low q2) by assumption. exact Hle.
Qed.

(** X2: when [demand_min < demand_max], the expected sales do not decrease
    when the quantity grows. *)
Theorem expected_sales_monotone (params : NegotiationParams.t) (q1 q2 : Q) :
  NegotiationParams.demand_min params < NegotiationParams.demand_max params ->
  q1 <= q2 ->
  expectedMinQuantityDemand q1 params <= expectedMinQuantityDemand q2 params.
Proof.
  apply expected_sales_nondecreasing.
Qed.

Lemma expected_sales_monotone_witness :
  expectedMinQuantityDemand 40 INITIAL_PARAMS
  <= expectedMinQuantityDemand 70 INITIAL_PARAMS.
Proof.
  apply (expected_sales_monotone INITIAL_PARAMS 40 70); qeval.
Defined.

(** A positive quantity has positive expected sales when the demand is not
    negative. *)
Lemma expected_sales_positive q params :
  0 <= NegotiationParams.demand_min params ->
  NegotiationParams.demand_min params < NegotiationParams.demand_max params ->
  0 < q ->
  0 < expectedMinQuantityDemand q params.
Proof.
  intros Hmin Hrange Hq.
  destruct (Qlt_le_dec (NegotiationParams.demand_min params) q) as [Hlo|Hlo].
  - pose proof (expected_sales_lower q params Hrange Hlo). lra.
  - rewrite expected_sales_low by assumption. exact Hq.
Qed.

Lemma expected_sales_nonneg q params :
  0 <= NegotiationParams.demand_min params ->
  NegotiationParams.demand_min params < NegotiationParams.demand_max params ->
  0 <= q ->
  0 <= expectedMinQuantityDemand q params.
Proof.
  intros Hmin Hrange Hq.
  destruct (Qlt_le_dec (NegotiationParams.demand_min params) q) as [Hlo|Hlo].
  - pose proof (expected_sales_lower q params Hrange Hlo). lra.
  - rewrite expected_sales_low by assumption. exact Hq.
Qed.

(** ** What a missing quantity means *)

Lemma retailer_profit_eq (w q : Q) (params : NegotiationParams.t) :
  ProfitCalcs.retailer_profit (calculateProfits w q params)
  = (NegotiationParams.p params - w) * expectedMinQuantityDemand q params.
Proof. reflexivity. Qed.

Lemma supplier_profit_eq (w q : Q) (params : NegotiationParams.t) :
  ProfitCalcs.supplier_profit (calculateProfits w q params)
  = w * expectedMinQuantityDemand q params - NegotiationParams.c params * q.
Proof. reflexivity. Qed.

Lemma findQ_bisects (w T : Q) (params : NegotiationParams.t) :
  w < NegotiationParams.p params ->
  findQForTargetRetailerProfit w T params
  = match bisection (profitDifference w T params) tt
            (1 # 1000000) (NegotiationParams.demand_max params * 2)
            default_tol default_max_iter with
    | None => None
    | Some q_float => Some (Js.Math_round q_float)
    end.
Proof.
  intro Hw. unfold findQForTargetRetailerProfit. cbv zeta.
  apply leb_false in Hw. rewrite Hw. reflexivity.
Qed.

(** X3: with demand on a range [0 <= demand_min < demand_max], a positive
    target above [(p - w)] times the mean demand is reported as not found,
    and no quantity [q >= 0] gives the retailer more than the target. *)
Theorem findQ_none_when_target_too_high
    (params : NegotiationParams.t) (w T : Q) :
  0 <= NegotiationParams.demand_min params ->
  NegotiationParams.demand_min params < NegotiationParams.demand_max params ->
  0 < T ->
  (NegotiationParams.p params - w)
  * ((NegotiationParams.demand_min params + NegotiationParams.demand_max params) / 2) < T ->
  findQForTargetRetailerProfit w T params = None /\
  forall q : Q,
    0 <= q -> ProfitCalcs.retailer_profit (calculateProfits w q params) <= T.
Proof.
  intros Hmin Hrange HT Hbest.
  unfold Qdiv in Hbest. change (/ 2) with (1 # 2) in Hbest.
  assert (Hall : forall q : Q,
             0 <= q -> ProfitCalcs.retailer_profit (calculateProfits w q params) < T).
  { intros q Hq. rewrite retailer_profit_eq.
    pose proof (expected_sales_nonneg q params Hmin Hrange Hq) as Hnonneg.
    destruct (expected_sales_upper q params Hrange) as [_ Hmean].
    set (E := expectedMinQuantityDemand q params) in *.
    destruct (Qlt_le_dec w (NegotiationParams.p params)) as [Hw|Hw]; nra. }
  split; [|intros q Hq; apply Qlt_le_weak; apply Hall; exact Hq].
  destruct (Qlt_le_dec w (NegotiationParams.p params)) as [Hw|Hw].
  - rewrite findQ_bisects by exact Hw.
    assert (Hnone : bisection (profitDifference w T params) tt (1 # 1000000)
                      (NegotiationParams.demand_max params * 2)
                      default_tol default_max_iter = None).
    { apply bisection_none. unfold profitDifference.
      assert (H1 : ProfitCalcs.retailer_profit
                     (calculateProfits w (1 # 1000000) params) < T)
        by (apply Hall; discriminate).
      assert (H2 : ProfitCalcs.retailer_profit
                     (calculateProfits w (NegotiationParams.demand_max params * 2) params) < T)
        by (apply Hall; lra).
      nra. }
    rewrite Hnone. reflexivity.
  - unfold findQForTargetRetailerProfit. cbv zeta.
    apply leb_true in Hw. apply leb_false in HT. rewrite Hw, HT. reflexivity.
Qed.

Lemma findQ_none_when_target_too_high_witness :
  findQForTargetRetailerProfit 9 60 INITIAL_PARAMS = None /\
  forall q : Q,
    0 <= q -> ProfitCalcs.retailer_profit (calculateProfits 9 q INITIAL_PARAMS) <= 60.
Proof.
  apply (findQ_none_when_target_too_high INITIAL_PARAMS 9 60); qeval.
Defined.

(** X4: with [w < p] and demand on a range [0 <= demand_min < demand_max], a
    target that is not positive is reported as not found, although every
    quantity [q >= 0] gives the retailer at least that profit. *)
Theorem findQ_none_when_target_not_positive
    (params : NegotiationParams.t) (w T : Q) :
  0 <= NegotiationParams.demand_min params ->
  NegotiationParams.demand_min params < NegotiationParams.demand_max params ->
  w < NegotiationParams.p params ->
  T <= 0 ->
  findQForTargetRetailerProfit w T params = None /\
  forall q : Q,
    0 <= q -> T <= ProfitCalcs.retailer_profit (calculateProfits w q params).
Proof.
  intros Hmin Hrange Hw HT. split.
  - rewrite findQ_bisects by exact Hw.
    assert (Hnone : bisection (profitDifference w T params) tt (1 # 1000000)
                      (NegotiationParams.demand_max params * 2)
                      default_tol default_max_iter = None).
    { apply bisection_none. unfold profitDifference. rewrite !retailer_profit_eq.
      assert (H1 : 0 < expectedMinQuantityDemand (1 # 1000000) params)
        by (apply expected_sales_positive; [assumption | assumption | reflexivity]).
      assert (H2 : 0 < expectedMinQuantityDemand
                         (NegotiationParams.demand_max params * 2) params)
        by (apply expected_sales_positive; [assumption | assumption | lra]).
      set (E1 := expectedMinQuantityDemand (1 # 1000000) params) in *.
      set (E2 := expectedMinQuantityDemand
                   (NegotiationParams.demand_max params * 2) params) in *.
      assert (G1 : 0 < (NegotiationParams.p params - w) * E1)
        by (apply Qmult_lt_0_compat; lra).
      assert (G2 : 0 < (NegotiationParams.p params - w) * E2)
        by (apply Qmult_lt_0_compat; lra).
      apply Qmult_le_0_compat; lra. }
    rewrite Hnone. reflexivity.
  - intros q Hq. rewrite retailer_profit_eq.
    pose proof (expected_sales_nonneg q params Hmin Hrange Hq) as Hnonneg.
    assert (0 <= (NegotiationParams.p params - w) * expectedMinQuantityDemand q params)
      by (apply Qmult_le_0_compat; lra).
    lra.
Qed.

Lemma findQ_none_when_target_not_positive_witness :
  findQForTargetRetailerProfit 5 0 INITIAL_PARAMS = None /\
  forall q : Q,
    0 <= q -> 0 <= ProfitCalcs.retailer_profit (calculateProfits 5 q INITIAL_PARAMS).
Proof.
  apply (findQ_none_when_target_not_positive INITIAL_PARAMS 5 0); qeval.
Defined.

(** ** The brackets of the bisection keep the sign change *)

(** When [x] and [y] differ in sign and [z], not zero, does not differ in
    sign from [x], then [z] and [y] differ in sign. *)
Lemma sign_moves_right (x y z : Q) :
  x * y < 0 -> 0 <= x * z -> ~ z == 0 -> z * y < 0.
Proof.
  intros Hxy Hxz Hz.
  destruct (Q_dec x 0) as [[Hx|Hx]|Hx].
  - assert (Hy : 0 < y).
    { apply Qnot_le_lt. intro Hy.
      assert (0 <= (- x) * (- y)) by (apply Qmult_le_0_compat; lra). lra. }
    assert (Hz' : z < 0).
    { apply Qnot_le_lt. intro Hz'.
      destruct (Qle_lt_or_eq _ _ Hz') as [Hpos|Heq]; [|apply Hz; symmetry; exact Heq].
      assert (0 < (- x) * z) by (apply Qmult_lt_0_compat; lra). lra. }
    assert (0 < (- z) * y) by (apply Qmult_lt_0_compat; lra). lra.
  - assert (Hy : y < 0).
    { apply Qnot_le_lt. intro Hy.
      assert (0 <= x * y) by (apply Qmult_le_0_compat; lra). lra. }
    assert (Hz' : 0 < z).
    { apply Qnot_le_lt. intro Hz'.
      destruct (Qle_lt_or_eq _ _ Hz') as [Hneg|Heq]; [|apply Hz; exact Heq].
      assert (0 < x * (- z)) by (apply Qmult_lt_0_compat; lra). lra. }
    assert (0 < z * (- y)) by (apply Qmult_lt_0_compat; lra). lra.
  - assert (x * y == 0) by (rewrite Hx; ring). lra.
Qed.

Section BisectionInvariant.
Context {T : Type} (func : Q -> T -> Q) (context : T) (tol : Q).
Hypothesis tol_positive : 0 < tol.

(** A halving made after the stopping test failed keeps the sign change. *)
Lemma halve_sign (a b : Q) :
  func a context * func b context < 0 ->
  ~ stops func context tol (a, b) ->
  func (fst (halve func context (a, b))) context
  * func (snd (halve func context (a, b))) context < 0.
Proof.
  intros Hsign Hnot.
  assert (Hmid : tol <= Qabs (func (midpoint (a, b)) context)).
  { apply Qnot_lt_le. intro H. apply Hnot. left. exact H. }
  unfold halve. cbn [fst snd].
  destruct (Js.ltb _ 0) eqn:Hleft; cbn [fst snd].
  - apply ltb_true in Hleft. exact Hleft.
  - apply ltb_false in Hleft.
    set (x := func a context) in *. set (y := func b context) in *.
    set (z := func (midpoint (a, b)) context) in *.
    apply (sign_moves_right x y z); [exact Hsign | exact Hleft |].
    intro Hzero. rewrite Hzero in Hmid. change (Qabs 0) with 0 in Hmid. lra.
Qed.

Lemma nth_bracket_sign (k : nat) :
  forall a b : Q,
    func a context * func b context < 0 ->
    (forall j : nat, (j < k)%nat ->
                     ~ stops func context tol (nth_bracket func context j (a, b))) ->
    func (fst (nth_bracket func context k (a, b))) context
    * func (snd (nth_bracket func context k (a, b))) context < 0.
Proof.
  induction k as [|k IH]; intros a b Hsign Hbefore; cbn [nth_bracket].
  - exact Hsign.
  - pose proof (halve_sign a b Hsign (Hbefore 0%nat (Nat.lt_0_succ k))) as Hnext.
    destruct (halve func context (a, b)) as [a' b'] eqn:Hhalve.
    apply IH; [exact Hnext|].
    intros j Hj. specialize (Hbefore (S j)). cbn [nth_bracket] in Hbefore.
    rewrite Hhalve in Hbefore. apply Hbefore. lia.
Qed.
End BisectionInvariant.

Section BracketWidth.
Context {T : Type} (func : Q -> T -> Q) (context : T).

(** After [k] halvings the bracket is [2^k] times narrower. *)
Lemma nth_bracket_width (k : nat) :
  forall a b : Q,
    width (nth_bracket func context k (a, b)) * 2 ^ Z.of_nat k == b - a.
Proof.
  induction k as [|k IH]; intros a b.
  - cbn. unfold width. cbn [fst snd]. ring.
  - cbn [nth_bracket].
    pose proof (width_halve func context (a, b)) as Hhalf.
    destruct (halve func context (a, b)) as [a' b'] eqn:Hhalve.
    rewrite Nat2Z.inj_succ, <- Z.add_1_r.
    rewrite Qpower_plus by discriminate.
    specialize (IH a' b'). unfold width in Hhalf. cbn [fst snd] in Hhalf.
    change (2 ^ 1) with 2.
    setoid_replace (width (nth_bracket func context k (a', b'))
                    * (2 ^ Z.of_nat k * 2))
      with (width (nth_bracket func context k (a', b')) * 2 ^ Z.of_nat k * 2)
      by ring.
    rewrite IH, Hhalf. field.
Qed.
End BracketWidth.

(** ** What the bisection returns *)

Lemma bisection_returns_midpoint_of_sign_change_aux {T : Type}
    (func : Q -> T -> Q) (context : T) (a b tol : Q) (max_iter : nat) :
  0 < tol -> a < b ->
  func a context * func b context < 0 ->
  (0 < max_iter)%nat ->
  exists (k : nat) (lo hi : Q),
    (k < max_iter)%nat /\
    bisection func context a b tol max_iter = Some ((lo + hi) / 2) /\
    a <= lo /\ lo < hi /\ hi <= b /\
    func lo context * func hi context < 0 /\
    (hi - lo) * 2 ^ Z.of_nat k == b - a /\
    (Qabs (func ((lo + hi) / 2) context) < tol \/
     (hi - lo) / 2 < tol \/
     S k = max_iter).
Proof.
  intros Htol Hab Hsign Hpos.
  destruct max_iter as [|m]; [lia|].
  rewrite bisection_some by exact Hsign.
  destruct (bisection_loop_midpoint func context tol m a b a)
    as (k & Hk & Hres & Hbefore & Hlast).
  pose proof (nth_bracket_ordered func context k a b Hab) as (Hlo & Hlohi & Hhi).
  pose proof (nth_bracket_sign func context tol Htol k a b Hsign Hbefore) as Hksign.
  pose proof (nth_bracket_width func context k a b) as Hwidth.
  destruct (nth_bracket func context k (a, b)) as [lo hi] eqn:Hbracket.
  cbn [fst snd] in *. unfold width in Hwidth. cbn [fst snd] in Hwidth.
  exists k, lo, hi. split; [lia|]. split; [rewrite Hres; reflexivity|].
  repeat (split; [assumption|]).
  destruct Hlast as [Hstop | ->]; [|right; right; reflexivity].
  destruct Hstop as [Hf | Hw]; [left; exact Hf|].
  right; left. rewrite width_halve in Hw. exact Hw.
Qed.

(** X5: with a positive tolerance, [a < b], a sign change between [a] and
    [b] and at least one iteration, [bisection] returns the midpoint of a
    bracket [lo, hi] inside [a, b] that still holds a sign change and is
    [2^k] times narrower than [b - a], [k < max_iter]; and the function is
    within the tolerance at the midpoint, or half the bracket is narrower
    than the tolerance, or all [max_iter] iterations were made. *)
Theorem bisection_returns_midpoint_of_sign_change {T : Type}
    (func : Q -> T -> Q) (context : T) (a b tol : Q) (max_iter : nat) :
  0 < tol -> a < b ->
  func a context * func b context < 0 ->
  (0 < max_iter)%nat ->
  exists (k : nat) (lo hi : Q),
    (k < max_iter)%nat /\
    bisection func context a b tol max_iter = Some ((lo + hi) / 2) /\
    a <= lo /\ lo < hi /\ hi <= b /\
    func lo context * func hi context < 0 /\
    (hi - lo) * 2 ^ Z.of_nat k == b - a /\
    (Qabs (func ((lo + hi) / 2) context) < tol \/
     (hi - lo) / 2 < tol \/
     S k = max_iter).
Proof.
  apply bisection_returns_midpoint_of_sign_change_aux.
Qed.

Lemma bisection_returns_midpoint_of_sign_change_witness :
  exists (k : nat) (lo hi : Q),
    (k < 100)%nat /\
    bisection (fun (x : Q) (_ : unit) => x - (1 # 3)) tt 0 1 (1 # 10) 100
    = Some ((lo + hi) / 2) /\
    0 <= lo /\ lo < hi /\ hi <= 1 /\ (lo - (1 # 3)) * (hi - (1 # 3)) < 0.
Proof.
  destruct (bisection_returns_midpoint_of_sign_change
              (fun (x : Q) (_ : unit) => x - (1 # 3)) tt 0 1 (1 # 10) 100)
    as (k & lo & hi & Hk & Hres & Hlo & Hlohi & Hhi & Hsign & _);
    [reflexivity | reflexivity | reflexivity | lia |].
  exists k, lo, hi. repeat (split; [assumption|]). exact Hsign.
Defined.

(** At the midpoint of a bracket with a sign change, a function that does
    not decrease and rises by at most [L] per unit is within [L] times half
    the width of zero. *)
Lemma midpoint_value_small (g : Q -> Q) (L lo hi : Q) :
  lo < hi ->
  g lo * g hi < 0 ->
  (forall x y : Q, lo <= x -> x <= y -> y <= hi ->
                   0 <= g y - g x /\ g y - g x <= L * (y - x)) ->
  Qabs (g ((lo + hi) / 2)) < L * ((hi - lo) / 2).
Proof.
  intros Hlohi Hsign Hslope.
  assert (Hmid : lo <= (lo + hi) / 2 /\ (lo + hi) / 2 <= hi).
  { unfold Qdiv. change (/ 2) with (1 # 2). lra. }
  destruct Hmid as [Hm1 Hm2].
  destruct (Hslope lo hi) as [Hup _]; [lra | lra | lra |].
  destruct (Hslope lo ((lo + hi) / 2)) as [Hl1 Hl2]; [lra | exact Hm1 | exact Hm2 |].
  destruct (Hslope ((lo + hi) / 2) hi) as [Hr1 Hr2]; [exact Hm1 | exact Hm2 | lra |].
  assert (Hends : g lo < 0 /\ 0 < g hi).
  { split; apply Qnot_le_lt; intro Hc.
    - assert (0 <= g lo * g hi) by (apply Qmult_le_0_compat; lra). lra.
    - assert (0 <= (- g lo) * (- g hi)) by (apply Qmult_le_0_compat; lra). lra. }
  destruct Hends as [Hneg Hposi].
  setoid_replace ((lo + hi) / 2 - lo) with ((hi - lo) / 2) in Hl2 by field.
  setoid_replace (hi - (lo + hi) / 2) with ((hi - lo) / 2) in Hr2 by field.
  apply Qabs_Qlt_condition. split; lra.
Qed.

Lemma bisection_some_sign {T : Type} (func : Q -> T -> Q) (context : T)
    (a b tol : Q) (max_iter : nat) (root : Q) :
  bisection func context a b tol max_iter = Some root ->
  func a context * func b context < 0.
Proof.
  intro Hsome. apply Qnot_le_lt. intro Hle.
  apply (bisection_none func context tol a b max_iter) in Hle. congruence.
Qed.

Lemma bisection_root_accuracy {T : Type} (func : Q -> T -> Q) (context : T)
    (a b tol L : Q) (max_iter : nat) (root : Q) :
  0 < tol -> a < b -> (0 < max_iter)%nat ->
  (forall x y : Q, a <= x -> x <= y -> y <= b ->
                   0 <= func y context - func x context /\
                   func y context - func x context <= L * (y - x)) ->
  bisection func context a b tol max_iter = Some root ->
  a < root /\ root < b /\
  (Qabs (func root context) < tol \/
   Qabs (func root context) < L * tol \/
   Qabs (func root context) * 2 ^ Z.of_nat max_iter < L * (b - a)).
Proof.
  intros Htol Hab Hpos Hslope Hsome.
  pose proof (bisection_some_sign _ _ _ _ _ _ _ Hsome) as Hsign.
  destruct (bisection_returns_midpoint_of_sign_change_aux
              func context a b tol max_iter Htol Hab Hsign Hpos)
    as (k & lo & hi & Hk & Hres & Hlo & Hlohi & Hhi & Hksign & Hwidth & Hstop).
  rewrite Hsome in Hres. injection Hres as ->.
  assert (Hhalf : 0 < (hi - lo) / 2 /\ lo < (lo + hi) / 2 /\ (lo + hi) / 2 < hi).
  { unfold Qdiv. change (/ 2) with (1 # 2). lra. }
  destruct Hhalf as (Hh & Hm1 & Hm2).
  split; [lra|]. split; [lra|].
  assert (Hsmall : Qabs (func ((lo + hi) / 2) context) < L * ((hi - lo) / 2)).
  { apply (midpoint_value_small (fun x => func x context) L lo hi Hlohi Hksign).
    intros x y Hx Hxy Hy. apply Hslope; lra. }
  pose proof (Qabs_nonneg (func ((lo + hi) / 2) context)) as Hnonneg.
  set (G := Qabs (func ((lo + hi) / 2) context)) in *.
  set (h := (hi - lo) / 2) in *.
  assert (HL : 0 < L).
  { apply Qnot_le_lt. intro HL.
    assert (0 <= (- L) * h) by (apply Qmult_le_0_compat; lra). lra. }
  destruct Hstop as [Hf | [Hw | Hlast]].
  - left. exact Hf.
  - right; left.
    assert (0 < L * (tol - h)) by (apply Qmult_lt_0_compat; lra). lra.
  - right; right. rewrite <- Hlast.
    rewrite Nat2Z.inj_succ, <- Z.add_1_r, Qpower_plus by discriminate.
    change (2 ^ 1) with 2.
    assert (Hp : 0 < 2 ^ Z.of_nat k) by (apply Qpower_0_lt; reflexivity).
    set (P := 2 ^ Z.of_nat k) in *.
    assert (Hh2 : h * 2 == hi - lo) by (unfold h; field).
    assert (Hprod : 0 < (L * h - G) * (P * 2)) by (apply Qmult_lt_0_compat; lra).
    setoid_replace (L * (b - a)) with (L * h * (P * 2)).
    + lra.
    + rewrite <- Hwidth, <- Hh2. ring.
Qed.

(** X6: accuracy of the bisection.  For a function that does not decrease
    on [a, b] and rises by at most [L] per unit, a root returned with a
    positive tolerance and at least one iteration lies strictly between [a]
    and [b], and the function there is smaller in absolute value than
    [tol], or than [L * tol], or than [L * (b - a) / 2^max_iter]. *)
Theorem bisection_accuracy {T : Type} (func : Q -> T -> Q) (context : T)
    (a b tol L : Q) (max_iter : nat) (root : Q) :
  0 < tol -> a < b -> (0 < max_iter)%nat ->
  (forall x y : Q, a <= x -> x <= y -> y <= b ->
                   0 <= func y context - func x context /\
                   func y context - func x context <= L * (y - x)) ->
  bisection func context a b tol max_iter = Some root ->
  a < root /\ root < b /\
  (Qabs (func root context) < tol \/
   Qabs (func root context) < L * tol \/
   Qabs (func root context) * 2 ^ Z.of_nat max_iter < L * (b - a)).
Proof.
  apply bisection_root_accuracy.
Qed.

Lemma bisection_accuracy_witness :
  exists root : Q,
    bisection (fun (x : Q) (_ : unit) => x - (1 # 3)) tt 0 1 (1 # 10) 100 = Some root /\
    0 < root /\ root < 1.
Proof.
  assert (Hroot : exists root : Q,
             bisection (fun (x : Q) (_ : unit) => x - (1 # 3)) tt 0 1 (1 # 10) 100
             = Some root).
  { eexists. vm_compute. reflexivity. }
  destruct Hroot as [root Hroot].
  destruct (bisection_accuracy (fun (x : Q) (_ : unit) => x - (1 # 3)) tt
              0 1 (1 # 10) 1 100 root) as (Hlow & Hhigh & _).
  - reflexivity.
  - reflexivity.
  - lia.
  - intros x y _ Hxy _. cbv beta. split; lra.
  - exact Hroot.
  - exists root. split; [exact Hroot|]. split; [exact Hlow | exact Hhigh].
Defined.

(** ** The quantity found for a target *)

(** The expected sales rise with the quantity, and by no more than the
    quantity does. *)
Lemma expected_sales_slope (params : NegotiationParams.t) (x y : Q) :
  NegotiationParams.demand_min params < NegotiationParams.demand_max params ->
  x <= y ->
  0 <= expectedMinQuantityDemand y params - expectedMinQuantityDemand x params /\
  expectedMinQuantityDemand y params - expectedMinQuantityDemand x params <= y - x.
Proof.
  intros Hrange Hxy. split.
  { pose proof (expected_sales_nondecreasing params x y Hrange Hxy). lra. }
  destruct (Qlt_le_dec (NegotiationParams.demand_min params) x) as [Hlox|Hlox].
  - destruct (Qlt_le_dec x (NegotiationParams.demand_max params)) as [Hhix|Hhix].
    + pose proof (expected_sales_mid_times_range x params Hlox Hhix) as Hmx.
      destruct (Qlt_le_dec y (NegotiationParams.demand_max params)) as [Hhiy|Hhiy].
      * assert (Hloy : NegotiationParams.demand_min params < y) by lra.
        pose proof (expected_sales_mid_times_range y params Hloy Hhiy) as Hmy.
        set (Ex := expectedMinQuantityDemand x params) in *.
        set (Ey := expectedMinQuantityDemand y params) in *.
        set (lo := NegotiationParams.demand_min params) in *.
        set (hi := NegotiationParams.demand_max params) in *.
        assert (H1 : 0 <= (y - x) * ((x + y) * (1 # 2) - lo))
          by (apply Qmult_le_0_compat; lra).
        apply Qmult_lt_0_le_reg_r with (hi - lo); [lra|]. lra.
      * rewrite (expected_sales_high y) by lra.
        set (Ex := expectedMinQuantityDemand x params) in *.
        set (lo := NegotiationParams.demand_min params) in *.
        set (hi := NegotiationParams.demand_max params) in *.
        assert (H1 : 0 <= (hi - x) * ((hi - lo) - (hi - x) * (1 # 2)))
          by (apply Qmult_le_0_compat; lra).
        assert (H2 : 0 <= (y - hi) * (hi - lo))
          by (apply Qmult_le_0_compat; lra).
        apply Qmult_lt_0_le_reg_r with (hi - lo); [lra|].
        unfold Qdiv. change (/ 2) with (1 # 2). lra.
    + rewrite (expected_sales_high x), (expected_sales_high y) by lra. lra.
  - rewrite (expected_sales_low x) by assumption.
    destruct (expected_sales_upper y params Hrange) as [Hy _]. lra.
Qed.

Lemma profitDifference_slope (params : NegotiationParams.t) (w T x y : Q) :
  NegotiationParams.demand_min params < NegotiationParams.demand_max params ->
  w < NegotiationParams.p params ->
  x <= y ->
  0 <= profitDifference w T params y tt - profitDifference w T params x tt /\
  profitDifference w T params y tt - profitDifference w T params x tt
  <= (NegotiationParams.p params - w) * (y - x).
Proof.
  intros Hrange Hw Hxy. unfold profitDifference. rewrite !retailer_profit_eq.
  destruct (expected_sales_slope params x y Hrange Hxy) as [H1 H2].
  set (Ex := expectedMinQuantityDemand x params) in *.
  set (Ey := expectedMinQuantityDemand y params) in *.
  assert (0 <= (NegotiationParams.p params - w) * (Ey - Ex))
    by (apply Qmult_le_0_compat; lra).
  assert (0 <= (NegotiationParams.p params - w) * ((y - x) - (Ey - Ex)))
    by (apply Qmult_le_0_compat; lra).
  split; lra.
Qed.

Lemma Math_round_close (x : Q) :
  x - (1 # 2) < Js.Math_round x /\ Js.Math_round x <= x + (1 # 2).
Proof.
  destruct (Math_round_nearest x) as (z & -> & H1 & H2). split; assumption.
Qed.

(** The expected sales of a number and of its rounding differ by at most a
    half. *)
Lemma expected_sales_of_rounding (params : NegotiationParams.t) (x : Q) :
  NegotiationParams.demand_min params < NegotiationParams.demand_max params ->
  - (1 # 2) <= expectedMinQuantityDemand (Js.Math_round x) params
               - expectedMinQuantityDemand x params /\
  expectedMinQuantityDemand (Js.Math_round x) params
  - expectedMinQuantityDemand x params <= 1 # 2.
Proof.
  intro Hrange. destruct (Math_round_close x) as [H1 H2].
  set (r := Js.Math_round x) in *.
  destruct (Qlt_le_dec x r) as [Hlt|Hle].
  - destruct (expected_sales_slope params x r Hrange) as [Ha Hb]; [lra|].
    split; lra.
  - destruct (expected_sales_slope params r x Hrange Hle) as [Ha Hb].
    split; lra.
Qed.

(** X7: accuracy of the quantity found.  With [demand_min < demand_max],
    [w < p] and a search interval [1e-6 < 2 * demand_max], the retailer's
    profit at a quantity that [findQForTargetRetailerProfit] returns differs
    from the target by less than half the unit margin [p - w], for the
    rounding, plus [tol + (p - w) * tol + (p - w) * (2 * demand_max - 1e-6)
    / 2^100], for the bisection with its default tolerance and iterations. *)
Theorem findQ_accuracy (params : NegotiationParams.t) (w T newQ : Q) :
  NegotiationParams.demand_min params < NegotiationParams.demand_max params ->
  w < NegotiationParams.p params ->
  1 # 1000000 < NegotiationParams.demand_max params * 2 ->
  findQForTargetRetailerProfit w T params = Some newQ ->
  Qabs (ProfitCalcs.retailer_profit (calculateProfits w newQ params) - T)
  < (NegotiationParams.p params - w) * (1 # 2)
    + (default_tol + (NegotiationParams.p params - w) * default_tol
       + (NegotiationParams.p params - w)
         * (NegotiationParams.demand_max params * 2 - (1 # 1000000)) / 2 ^ 100).
Proof.
  intros Hrange Hw Hab Hfind.
  rewrite findQ_bisects in Hfind by exact Hw.
  destruct (bisection _ _ _ _ _ _) as [q_float|] eqn:Hb; [|discriminate].
  injection Hfind as <-.
  destruct (bisection_root_accuracy (profitDifference w T params) tt
              (1 # 1000000) (NegotiationParams.demand_max params * 2)
              default_tol (NegotiationParams.p params - w)
              default_max_iter q_float)
    as (_ & _ & Hacc).
  { reflexivity. }
  { exact Hab. }
  { exact default_max_iter_positive. }
  { intros x y _ Hxy _. apply profitDifference_slope; assumption. }
  { exact Hb. }
  change (Z.of_nat default_max_iter) with 100%Z in Hacc.
  set (L := NegotiationParams.p params - w) in *.
  set (width0 := NegotiationParams.demand_max params * 2 - (1 # 1000000)) in *.
  assert (Hlast : 0 < L * width0 / 2 ^ 100).
  { apply Qlt_shift_div_l; [reflexivity|].
    assert (0 < L * width0) by (apply Qmult_lt_0_compat; unfold L, width0; lra).
    lra. }
  assert (Htol : 0 < default_tol) by reflexivity.
  assert (HLtol : 0 < L * default_tol)
    by (apply Qmult_lt_0_compat; [unfold L; lra | exact Htol]).
  assert (Hbis : Qabs (profitDifference w T params q_float tt)
                 < default_tol + L * default_tol + L * width0 / 2 ^ 100).
  { destruct Hacc as [H | [H | H]]; [lra | lra |].
    assert (Qabs (profitDifference w T params q_float tt) < L * width0 / 2 ^ 100)
      by (apply Qlt_shift_div_l; [reflexivity | exact H]).
    lra. }
  clear Hacc Hb.
  destruct (expected_sales_of_rounding params q_float Hrange) as [Hr1 Hr2].
  unfold profitDifference in Hbis. rewrite retailer_profit_eq in Hbis |- *.
  fold L in Hbis |- *.
  set (Er := expectedMinQuantityDemand (Js.Math_round q_float) params) in *.
  set (Ef := expectedMinQuantityDemand q_float params) in *.
  set (B := default_tol + L * default_tol + L * width0 / 2 ^ 100) in *.
  apply Qabs_Qlt_condition in Hbis. destruct Hbis as [Hb1 Hb2].
  assert (HL : 0 < L) by (unfold L; lra).
  assert (H1 : 0 <= L * ((1 # 2) - (Er - Ef))) by (apply Qmult_le_0_compat; lra).
  assert (H2 : 0 <= L * ((Er - Ef) + (1 # 2))) by (apply Qmult_le_0_compat; lra).
  apply Qabs_Qlt_condition. split; lra.
Qed.

Lemma findQ_accuracy_witness :
  Qabs (ProfitCalcs.retailer_profit (calculateProfits 3 100 INITIAL_PARAMS)
        - (350 - (1 # 1000000)))
  < (10 - 3) * (1 # 2)
    + (default_tol + (10 - 3) * default_tol
       + (10 - 3) * (100 * 2 - (1 # 1000000)) / 2 ^ 100).
Proof.
  apply (findQ_accuracy INITIAL_PARAMS 3 (350 - (1 # 1000000)) 100).
  - reflexivity.
  - reflexivity.
  - reflexivity.
  - vm_compute. reflexivity.
Defined.

Lemma Math_round_at_least_one (x : Q) : 1 # 2 <= x -> 1 <= Js.Math_round x.
Proof.
  intro Hx. unfold Js.Math_round.
  assert (Hle : 1 <= x + (1 # 2)) by lra.
  apply Qfloor_resp_le in Hle. change (Qfloor 1) with 1%Z in Hle.
  rewrite Zle_Qle in Hle. exact Hle.
Qed.

Lemma findQ_positive_quantity (params : NegotiationParams.t) (w T newQ : Q) :
  0 <= NegotiationParams.demand_min params ->
  NegotiationParams.demand_min params < NegotiationParams.demand_max params ->
  w < NegotiationParams.p params ->
  NegotiationParams.p params - w <= T ->
  findQForTargetRetailerProfit w T params = Some newQ ->
  1 <= newQ.
Proof.
  intros Hmin Hrange Hw HT Hfind.
  rewrite findQ_bisects in Hfind by exact Hw.
  destruct (bisection _ _ _ _ _ _) as [q_float|] eqn:Hb; [|discriminate].
  injection Hfind as <-.
  pose proof (bisection_some_sign _ _ _ _ _ _ _ Hb) as Hsign.
  set (L := NegotiationParams.p params - w) in *.
  assert (HL : 0 < L) by (unfold L; lra).
  (* a quantity with expected sales below 1 misses the target *)
  assert (Hmiss : forall x : Q,
             expectedMinQuantityDemand x params < 1 ->
             profitDifference w T params x tt < 0).
  { intros x Hx. unfold profitDifference. rewrite retailer_profit_eq. fold L.
    assert (0 < L * (1 - expectedMinQuantityDemand x params))
      by (apply Qmult_lt_0_compat; lra).
    lra. }
  assert (Hab : 1 # 1000000 < NegotiationParams.demand_max params * 2).
  { apply Qnot_le_lt. intro Hnarrow.
    assert (Hlow : forall x : Q, expectedMinQuantityDemand x params < 1).
    { intro x. destruct (expected_sales_upper x params Hrange) as [_ Hmean]. lra. }
    pose proof (Hmiss (1 # 1000000) (Hlow _)) as H1.
    pose proof (Hmiss (NegotiationParams.demand_max params * 2) (Hlow _)) as H2.
    assert (0 < (- profitDifference w T params (1 # 1000000) tt)
                * (- profitDifference w T params
                       (NegotiationParams.demand_max params * 2) tt))
      by (apply Qmult_lt_0_compat; lra).
    lra. }
  destruct (bisection_returns_midpoint_of_sign_change_aux
              (profitDifference w T params) tt (1 # 1000000)
              (NegotiationParams.demand_max params * 2) default_tol
              default_max_iter)
    as (k & lo & hi & _ & Hres & Hlo & Hlohi & Hhi & Hksign & _).
  { reflexivity. }
  { exact Hab. }
  { exact Hsign. }
  { exact default_max_iter_positive. }
  rewrite Hb in Hres. injection Hres as ->.
  destruct (profitDifference_slope params w T lo hi Hrange Hw) as [Hup _]; [lra|].
  assert (Hhipos : 0 < profitDifference w T params hi tt).
  { apply Qnot_le_lt. intro Hc.
    assert (0 <= (- profitDifference w T params lo tt)
                 * (- profitDifference w T params hi tt))
      by (apply Qmult_le_0_compat; lra).
    lra. }
  assert (Hhi1 : 1 < hi).
  { apply Qnot_le_lt. intro Hc.
    destruct (expected_sales_upper hi params Hrange) as [Hq _].
    destruct (Qlt_le_dec (expectedMinQuantityDemand hi params) 1) as [Hlt|Hge].
    - pose proof (Hmiss hi Hlt). lra.
    - assert (Hone : expectedMinQuantityDemand hi params == 1) by lra.
      unfold profitDifference in Hhipos. rewrite retailer_profit_eq in Hhipos.
      fold L in Hhipos. rewrite Hone in Hhipos. lra. }
  apply Math_round_at_least_one.
  unfold Qdiv. change (/ 2) with (1 # 2). lra.
Qed.

(** X8: with demand on a range [0 <= demand_min < demand_max] and [w < p],
    a quantity found for a target of at least the unit margin [p - w] is at
    least [1]: the counter-quantity of scenario 2 is then positive. *)
Theorem findQ_at_least_one (params : NegotiationParams.t) (w T newQ : Q) :
  0 <= NegotiationParams.demand_min params ->
  NegotiationParams.demand_min params < NegotiationParams.demand_max params ->
  w < NegotiationParams.p params ->
  NegotiationParams.p params - w <= T ->
  findQForTargetRetailerProfit w T params = Some newQ ->
  1 <= newQ.
Proof.
  apply findQ_positive_quantity.
Qed.

Lemma findQ_at_least_one_witness :
  findQForTargetRetailerProfit 3 (350 - (1 # 1000000)) INITIAL_PARAMS = Some 100 /\
  1 <= 100.
Proof.
  assert (Hfind : findQForTargetRetailerProfit 3 (350 - (1 # 1000000)) INITIAL_PARAMS
                  = Some 100) by (vm_compute; reflexivity).
  split; [exact Hfind|].
  apply (findQ_at_least_one INITIAL_PARAMS 3 (350 - (1 # 1000000)) 100).
  - discriminate.
  - reflexivity.
  - reflexivity.
  - discriminate.
  - exact Hfind.
Defined.

(** ** The even-split price *)

Lemma optimalWForQ_profitDifference_eq (q : Q) (params : NegotiationParams.t) (w : Q) :
  optimalWForQ_profitDifference q params w tt
  = w * expectedMinQuantityDemand q params - NegotiationParams.c params * q
    - (NegotiationParams.p params - w) * expectedMinQuantityDemand q params.
Proof. reflexivity. Qed.

(** At the price [c] the supplier earns less than the retailer. *)
Lemma optimalWForQ_low_end (q : Q) (params : NegotiationParams.t) :
  0 <= NegotiationParams.demand_min params ->
  NegotiationParams.demand_min params < NegotiationParams.demand_max params ->
  0 <= NegotiationParams.c params ->
  NegotiationParams.c params < NegotiationParams.p params ->
  0 < q ->
  optimalWForQ_profitDifference q params (NegotiationParams.c params) tt < 0.
Proof.
  intros Hmin Hrange Hc Hcp Hq. rewrite optimalWForQ_profitDifference_eq.
  pose proof (expected_sales_positive q params Hmin Hrange Hq) as HE.
  destruct (expected_sales_upper q params Hrange) as [HEq _].
  set (E := expectedMinQuantityDemand q params) in *.
  assert (0 <= NegotiationParams.c params * (q - E))
    by (apply Qmult_le_0_compat; lra).
  assert (0 < (NegotiationParams.p params - NegotiationParams.c params) * E)
    by (apply Qmult_lt_0_compat; lra).
  lra.
Qed.

(** X9: with demand on a range [0 <= demand_min < demand_max], a cost
    [0 <= c < p] and a positive quantity, [optimalWForQ] finds no price
    for a quantity whose total expected profit [p*E(q) - c*q] is not
    positive: a price it returns belongs to a quantity with a positive
    total. *)
Theorem optimalWForQ_needs_positive_total (params : NegotiationParams.t) (q : Q) :
  0 <= NegotiationParams.demand_min params ->
  NegotiationParams.demand_min params < NegotiationParams.demand_max params ->
  0 <= NegotiationParams.c params ->
  NegotiationParams.c params < NegotiationParams.p params ->
  0 < q ->
  (NegotiationParams.p params * expectedMinQuantityDemand q params
   - NegotiationParams.c params * q <= 0 ->
   optimalWForQ q params = None) /\
  (forall w : Q,
      optimalWForQ q params = Some w ->
      0 < NegotiationParams.p params * expectedMinQuantityDemand q params
          - NegotiationParams.c params * q).
Proof.
  intros Hmin Hrange Hc Hcp Hq.
  pose proof (optimalWForQ_low_end q params Hmin Hrange Hc Hcp Hq) as Hlow.
  assert (Hhigh : optimalWForQ_profitDifference q params (NegotiationParams.p params) tt
                  == NegotiationParams.p params * expectedMinQuantityDemand q params
                     - NegotiationParams.c params * q).
  { rewrite optimalWForQ_profitDifference_eq. ring. }
  assert (Hnone : NegotiationParams.p params * expectedMinQuantityDemand q params
                  - NegotiationParams.c params * q <= 0 ->
                  optimalWForQ q params = None).
  { intro Htotal. unfold optimalWForQ. apply bisection_none.
    rewrite <- Hhigh in Htotal.
    set (x := optimalWForQ_profitDifference q params (NegotiationParams.c params) tt) in *.
    set (y := optimalWForQ_profitDifference q params (NegotiationParams.p params) tt) in *.
    assert (0 <= (- x) * (- y)) by (apply Qmult_le_0_compat; lra). lra. }
  split; [exact Hnone|].
  intros w Hsome. apply Qnot_le_lt. intro Htotal.
  rewrite (Hnone Htotal) in Hsome. discriminate Hsome.
Qed.

Lemma optimalWForQ_needs_positive_total_witness :
  optimalWForQ 200 INITIAL_PARAMS = None.
Proof.
  destruct (optimalWForQ_needs_positive_total INITIAL_PARAMS 200) as [Hnone _];
    [discriminate | reflexivity | discriminate | reflexivity | reflexivity |].
  apply Hnone. discriminate.
Defined.

(** X10: under the same conditions, a price that [optimalWForQ] returns lies
    strictly between [c] and [p], and at that price the expected profits of
    the two parties differ by less than [tol + 2*E(q)*tol
    + 2*E(q)*(p - c) / 2^100], with the default tolerance [tol]. *)
Theorem optimalWForQ_accuracy (params : NegotiationParams.t) (q w : Q) :
  0 <= NegotiationParams.demand_min params ->
  NegotiationParams.demand_min params < NegotiationParams.demand_max params ->
  NegotiationParams.c params < NegotiationParams.p params ->
  0 < q ->
  optimalWForQ q params = Some w ->
  NegotiationParams.c params < w /\ w < NegotiationParams.p params /\
  Qabs (ProfitCalcs.supplier_profit (calculateProfits w q params)
        - ProfitCalcs.retailer_profit (calculateProfits w q params))
  < default_tol + 2 * expectedMinQuantityDemand q params * default_tol
    + 2 * expectedMinQuantityDemand q params
      * (NegotiationParams.p params - NegotiationParams.c params) / 2 ^ 100.
Proof.
  intros Hmin Hrange Hcp Hq Hfind. unfold optimalWForQ in Hfind.
  pose proof (expected_sales_positive q params Hmin Hrange Hq) as HE.
  destruct (bisection_root_accuracy (optimalWForQ_profitDifference q params) tt
              (NegotiationParams.c params) (NegotiationParams.p params)
              default_tol (2 * expectedMinQuantityDemand q params)
              default_max_iter w)
    as (Hlow & Hhigh & Hacc).
  { reflexivity. }
  { exact Hcp. }
  { exact default_max_iter_positive. }
  { intros x y _ Hxy _. rewrite !optimalWForQ_profitDifference_eq.
    set (E := expectedMinQuantityDemand q params) in *.
    assert (0 <= E * (y - x)) by (apply Qmult_le_0_compat; lra).
    split; lra. }
  { exact Hfind. }
  split; [exact Hlow|]. split; [exact Hhigh|].
  change (Z.of_nat default_max_iter) with 100%Z in Hacc.
  change (ProfitCalcs.supplier_profit (calculateProfits w q params)
          - ProfitCalcs.retailer_profit (calculateProfits w q params))
    with (optimalWForQ_profitDifference q params w tt).
  set (G := Qabs (optimalWForQ_profitDifference q params w tt)) in *.
  set (L := 2 * expectedMinQuantityDemand q params) in *.
  set (width0 := NegotiationParams.p params - NegotiationParams.c params) in *.
  assert (HL : 0 < L) by (unfold L; lra).
  assert (Hlast : 0 < L * width0 / 2 ^ 100).
  { apply Qlt_shift_div_l; [reflexivity|].
    assert (0 < L * width0) by (apply Qmult_lt_0_compat; unfold width0; lra).
    lra. }
  assert (Htol : 0 < default_tol) by reflexivity.
  assert (HLtol : 0 < L * default_tol) by (apply Qmult_lt_0_compat; assumption).
  destruct Hacc as [H | [H | H]]; [lra | lra |].
  assert (G < L * width0 / 2 ^ 100)
    by (apply Qlt_shift_div_l; [reflexivity | exact H]).
  lra.
Qed.

Lemma optimalWForQ_accuracy_witness :
  exists w : Q,
    optimalWForQ 40 (NegotiationParams.mk 3 10 50 100) = Some w /\
    3 < w /\ w < 10.
Proof.
  assert (Hw : exists w : Q,
             optimalWForQ 40 (NegotiationParams.mk 3 10 50 100) = Some w).
  { eexists. vm_compute. reflexivity. }
  destruct Hw as [w Hw].
  destruct (optimalWForQ_accuracy (NegotiationParams.mk 3 10 50 100) 40 w)
    as (Hlow & Hhigh & _).
  - discriminate.
  - reflexivity.
  - reflexivity.
  - reflexivity.
  - exact Hw.
  - exists w. split; [exact Hw|]. split; [exact Hlow | exact Hhigh].
Defined.

(** ** The even-split quantity *)





(** ** The Nash benchmark *)

Lemma nash_price_between (params : NegotiationParams.t) :
  0 < NegotiationParams.c params ->
  NegotiationParams.c params < NegotiationParams.p params ->
  NegotiationParams.c params
  < NashSolution.wholesale_price (nashBargainingSolution params) /\
  NashSolution.wholesale_price (nashBargainingSolution params)
  < NegotiationParams.p params.
Proof.
  intros Hc Hcp. cbn [nashBargainingSolution NashSolution.wholesale_price].
  set (c := NegotiationParams.c params) in *.
  set (p := NegotiationParams.p params) in *.
  assert (Hden : 0 < 2 * (p + c)) by lra.
  split.
  - apply Qlt_shift_div_l; [exact Hden|].
    assert (0 < (p - c) * (p + 2 * c)) by (apply Qmult_lt_0_compat; lra). lra.
  - apply Qlt_shift_div_r; [exact Hden|].
    assert (0 < p * (p - c)) by (apply Qmult_lt_0_compat; lra). lra.
Qed.

(** X12: for [0 < c < p] and [demand_min < demand_max], the Nash price lies
    strictly between [c] and [p], and the Nash quantity is a whole number
    between [0] and the width of the demand range plus a half. *)
Theorem nash_solution_bounds (params : NegotiationParams.t) :
  0 < NegotiationParams.c params ->
  NegotiationParams.c params < NegotiationParams.p params ->
  NegotiationParams.demand_min params < NegotiationParams.demand_max params ->
  let nash := nashBargainingSolution params in
  NegotiationParams.c params < NashSolution.wholesale_price nash /\
  NashSolution.wholesale_price nash < NegotiationParams.p params /\
  (exists z : Z, NashSolution.order_quantity nash = inject_Z z) /\
  0 <= NashSolution.order_quantity nash /\
  NashSolution.order_quantity nash
  < NegotiationParams.demand_max params - NegotiationParams.demand_min params
    + (1 # 2).
Proof.
  intros Hc Hcp Hrange. cbv zeta.
  destruct (nash_price_between params Hc Hcp) as [Hlow Hhigh].
  split; [exact Hlow|]. split; [exact Hhigh|].
  cbn [nashBargainingSolution NashSolution.order_quantity].
  set (c := NegotiationParams.c params) in *.
  set (p := NegotiationParams.p params) in *.
  set (R := NegotiationParams.demand_max params - NegotiationParams.demand_min params).
  assert (HR : 0 < R) by (unfold R; lra).
  assert (Hfloat : 0 < R * (p - c) / p /\ R * (p - c) / p < R).
  { split.
    - apply Qlt_shift_div_l; [lra|].
      assert (0 < R * (p - c)) by (apply Qmult_lt_0_compat; lra). lra.
    - apply Qlt_shift_div_r; [lra|].
      assert (0 < R * c) by (apply Qmult_lt_0_compat; lra). lra. }
  destruct Hfloat as [Hf1 Hf2].
  split; [eexists; reflexivity|]. split.
  - apply Math_round_nonneg. lra.
  - destruct (Math_round_close (R * (p - c) / p)) as [_ Hup]. lra.
Qed.

Lemma nash_solution_bounds_witness :
  3 < NashSolution.wholesale_price (nashBargainingSolution INITIAL_PARAMS) /\
  NashSolution.wholesale_price (nashBargainingSolution INITIAL_PARAMS) < 10.
Proof.
  destruct (nash_solution_bounds INITIAL_PARAMS) as (H1 & H2 & _);
    [reflexivity | reflexivity | reflexivity |].
  split; [exact H1 | exact H2].
Defined.

(** ** Where a counter-price comes from *)

Lemma findW_meets_target (params : NegotiationParams.t) (q T w : Q) :
  0 < q ->
  findWForTargetRetailerProfit q T params = Some w ->
  ProfitCalcs.retailer_profit (calculateProfits w q params) == T /\
  NegotiationParams.c params <= w.
Proof.
  intros Hq. unfold findWForTargetRetailerProfit. cbv zeta.
  apply leb_false in Hq. rewrite Hq, !andb_false_r.
  destruct (Js.leb (expectedMinQuantityDemand q params) 0) eqn:HE; [discriminate|].
  destruct (Js.ltb _ _) eqn:Hfloor; [discriminate|].
  intros [= <-]. apply leb_false in HE. apply ltb_false in Hfloor.
  split; [|exact Hfloor]. rewrite retailer_profit_eq. field. lra.
Qed.

(** A counter-price comes from [findWForTargetRetailerProfit] at a positive
    quantity. *)
Lemma classify_counter_price (params : NegotiationParams.t) (nash : NashSolution.t)
    (lastUserOffer : LastUserOffer.t) (q newW : Q) :
  classify lastUserOffer params nash = CounterPrice q newW ->
  0 < q /\
  findWForTargetRetailerProfit q (NashSolution.retailer_profit nash) params = Some newW.
Proof.
  unfold classify, analyseOffer. cbv zeta.
  destruct (validField (LastUserOffer.w lastUserOffer)) as [w|] eqn:Hw;
    destruct (validField (LastUserOffer.q lastUserOffer)) as [q'|] eqn:Hq;
    cbn [action Offer.w Offer.q]; try apply validField_some in Hq.
  - destruct (Js.leb _ _); [discriminate|].
    destruct (findWForTargetRetailerProfit _ _ _) as [w'|] eqn:Hfind; [|discriminate].
    intros [= <- <-]. split; [apply Hq | exact Hfind].
  - destruct (findQForTargetRetailerProfit _ _ _); discriminate.
  - destruct (findWForTargetRetailerProfit _ _ _) as [w'|] eqn:Hfind; [|discriminate].
    intros [= <- <-]. split; [apply Hq | exact Hfind].
  - discriminate.
Qed.

(** ** The price found for a target *)

(** X16: a price that [findWForTargetRetailerProfit] finds for a positive
    quantity and a target that is not negative lies between [c] and [p];
    it is below [p] when the target is positive. *)
Theorem findW_between_cost_and_retail (params : NegotiationParams.t) (q T w : Q) :
  0 < q -> 0 <= T ->
  findWForTargetRetailerProfit q T params = Some w ->
  NegotiationParams.c params <= w /\ w <= NegotiationParams.p params /\
  (0 < T -> w < NegotiationParams.p params).
Proof.
  intros Hq HT Hfind.
  destruct (findW_meets_target params q T w Hq Hfind) as [Htarget Hfloor].
  split; [exact Hfloor|].
  rewrite retailer_profit_eq in Htarget.
  assert (HE : 0 < expectedMinQuantityDemand q params).
  { revert Hfind. unfold findWForTargetRetailerProfit. cbv zeta.
    apply leb_false in Hq. rewrite Hq, !andb_false_r.
    destruct (Js.leb (expectedMinQuantityDemand q params) 0) eqn:HE; [discriminate|].
    intros _. apply leb_false in HE. exact HE. }
  set (E := expectedMinQuantityDemand q params) in *.
  split.
  - apply Qnot_lt_le. intro Hw.
    assert (0 < (w - NegotiationParams.p params) * E)
      by (apply Qmult_lt_0_compat; lra).
    lra.
  - intro HTpos. apply Qnot_le_lt. intro Hw.
    assert (0 <= (w - NegotiationParams.p params) * E)
      by (apply Qmult_le_0_compat; lra).
    lra.
Qed.

Lemma findW_between_cost_and_retail_witness :
  exists w : Q,
    findWForTargetRetailerProfit 70 (245 # 2) INITIAL_PARAMS = Some w /\
    3 <= w /\ w < 10.
Proof.
  assert (Hw : exists w : Q,
             findWForTargetRetailerProfit 70 (245 # 2) INITIAL_PARAMS = Some w).
  { eexists. vm_compute. reflexivity. }
  destruct Hw as [w Hw].
  destruct (findW_between_cost_and_retail INITIAL_PARAMS 70 (245 # 2) w)
    as (Hlow & _ & Hhigh); [reflexivity | discriminate | exact Hw |].
  exists w. split; [exact Hw|]. split; [exact Hlow | apply Hhigh; reflexivity].
Defined.

(** X17: with [demand_min < demand_max] and a target that is not negative,
    a larger quantity never loses the price: when a price is found for
    [q1 > 0], one is found for every [q2 >= q1], and it is at least as high. *)
Theorem findW_monotone_in_quantity (params : NegotiationParams.t) (q1 q2 T w1 : Q) :
  NegotiationParams.demand_min params < NegotiationParams.demand_max params ->
  0 <= T -> 0 < q1 -> q1 <= q2 ->
  findWForTargetRetailerProfit q1 T params = Some w1 ->
  exists w2 : Q,
    findWForTargetRetailerProfit q2 T params = Some w2 /\ w1 <= w2.
Proof.
  intros Hrange HT Hq1 Hq12 Hfind.
  assert (HE1 : 0 < expectedMinQuantityDemand q1 params).
  { revert Hfind. unfold findWForTargetRetailerProfit. cbv zeta.
    pose proof Hq1 as Hq. apply leb_false in Hq. rewrite Hq, !andb_false_r.
    destruct (Js.leb (expectedMinQuantityDemand q1 params) 0) eqn:HE; [discriminate|].
    intros _. apply leb_false in HE. exact HE. }
  pose proof (expected_sales_nondecreasing params q1 q2 Hrange Hq12) as Hmono.
  assert (HE2 : 0 < expectedMinQuantityDemand q2 params) by lra.
  assert (Hq2 : 0 < q2) by lra.
  rewrite findW_closed_form in Hfind by assumption. cbv zeta in Hfind.
  destruct (Js.ltb _ _) eqn:Hfloor1 in Hfind; [discriminate|].
  injection Hfind as <-. apply ltb_false in Hfloor1.
  rewrite findW_closed_form by assumption. cbv zeta.
  set (E1 := expectedMinQuantityDemand q1 params) in *.
  set (E2 := expectedMinQuantityDemand q2 params) in *.
  assert (Hdiv : T / E2 <= T / E1).
  { apply Qle_shift_div_l; [exact HE1|].
    assert (Ht2 : T / E2 * E2 == T) by (field; lra).
    assert (Hnn : 0 <= T / E2).
    { apply Qle_shift_div_l; [exact HE2|]. lra. }
    assert (0 <= T / E2 * (E2 - E1)) by (apply Qmult_le_0_compat; lra).
    lra. }
  assert (Hfloor2 : Js.ltb (NegotiationParams.p params - T / E2)
                      (NegotiationParams.c params) = false)
    by (apply ltb_false; lra).
  rewrite Hfloor2. eexists. split; [reflexivity|]. lra.
Qed.

Lemma findW_monotone_in_quantity_witness :
  exists w1 w2 : Q,
    findWForTargetRetailerProfit 70 (245 # 2) INITIAL_PARAMS = Some w1 /\
    findWForTargetRetailerProfit 90 (245 # 2) INITIAL_PARAMS = Some w2 /\
    w1 <= w2.
Proof.
  assert (Hw : exists w : Q,
             findWForTargetRetailerProfit 70 (245 # 2) INITIAL_PARAMS = Some w).
  { eexists. vm_compute. reflexivity. }
  destruct Hw as [w1 Hw1].
  destruct (findW_monotone_in_quantity INITIAL_PARAMS 70 90 (245 # 2) w1)
    as (w2 & Hw2 & Hle);
    [reflexivity | discriminate | reflexivity | discriminate | exact Hw1 |].
  exists w1, w2. split; [exact Hw1|]. split; [exact Hw2 | exact Hle].
Defined.

(** ** App.tsx: the parameters of a session *)

(** [Math.floor(random * n)] is an index below [n] for a draw in [0, 1). *)
Lemma floor_of_draw (random : Q) (n : Z) :
  0 <= random -> random < 1 -> (0 < n)%Z ->
  (0 <= Qfloor (random * inject_Z n) < n)%Z.
Proof.
  intros H0 H1 Hn.
  assert (Hn' : 0 < inject_Z n) by (rewrite Zlt_Qlt in Hn; exact Hn).
  assert (Hx0 : 0 <= random * inject_Z n) by (apply Qmult_le_0_compat; lra).
  assert (Hx1 : random * inject_Z n < inject_Z n).
  { assert (0 < (1 - random) * inject_Z n) by (apply Qmult_lt_0_compat; lra). lra. }
  split.
  - change 0%Z with (Qfloor 0). apply Qfloor_resp_le. exact Hx0.
  - rewrite Zlt_Qlt. pose proof (Qfloor_le (random * inject_Z n)). lra.
Qed.

Lemma array_get_three {A : Type} (x y z : A) (index : Z) :
  (0 <= index < 3)%Z ->
  array_get [x; y; z] index = Some x \/
  array_get [x; y; z] index = Some y \/
  array_get [x; y; z] index = Some z.
Proof.
  intro H.
  assert (Hcases : index = 0%Z \/ index = 1%Z \/ index = 2%Z) by lia.
  destruct Hcases as [-> | [-> | ->]]; cbn; auto.
Qed.

Lemma generateNewParams_cases (random1 random2 : Q) :
  0 <= random1 -> random1 < 1 -> 0 <= random2 -> random2 < 1 ->
  exists c p : Q,
    In c C_VALUES /\ In p P_VALUES /\
    generateNewParams random1 random2 = Some (NegotiationParams.mk c p 0 100).
Proof.
  intros Ha0 Ha1 Hb0 Hb1. unfold generateNewParams. cbv zeta.
  change (inject_Z (Z.of_nat (List.length C_VALUES))) with (inject_Z 3).
  change (inject_Z (Z.of_nat (List.length P_VALUES))) with (inject_Z 3).
  pose proof (floor_of_draw random1 3 Ha0 Ha1 eq_refl) as Hi.
  pose proof (floor_of_draw random2 3 Hb0 Hb1 eq_refl) as Hj.
  destruct (array_get_three 3 4 5 _ Hi) as [Hc | [Hc | Hc]];
    destruct (array_get_three 10 11 12 _ Hj) as [Hp | [Hp | Hp]];
    unfold C_VALUES, P_VALUES; rewrite Hc, Hp;
    eexists; eexists; (split; [|split; [|reflexivity]]); cbn; auto.
Qed.

(** X18: for two draws of [Math.random], each in [0, 1), [generateNewParams]
    builds parameters with [c] one of 3, 4, 5, [p] one of 10, 11, 12 and
    demand on [0, 100]; so [0 < c < p] and [demand_min < demand_max] in
    every session. *)
Theorem generateNewParams_valid (random1 random2 : Q) :
  0 <= random1 -> random1 < 1 -> 0 <= random2 -> random2 < 1 ->
  exists params : NegotiationParams.t,
    generateNewParams random1 random2 = Some params /\
    In (NegotiationParams.c params) [3; 4; 5] /\
    In (NegotiationParams.p params) [10; 11; 12] /\
    NegotiationParams.demand_min params = 0 /\
    NegotiationParams.demand_max params = 100 /\
    0 < NegotiationParams.c params /\
    NegotiationParams.c params < NegotiationParams.p params.
Proof.
  intros Ha0 Ha1 Hb0 Hb1.
  destruct (generateNewParams_cases random1 random2 Ha0 Ha1 Hb0 Hb1)
    as (c & p & Hc & Hp & Hgen).
  exists (NegotiationParams.mk c p 0 100). split; [exact Hgen|].
  cbn [NegotiationParams.c NegotiationParams.p
       NegotiationParams.demand_min NegotiationParams.demand_max].
  split; [exact Hc|]. split; [exact Hp|]. split; [reflexivity|].
  split; [reflexivity|].
  unfold C_VALUES, P_VALUES in *. cbn [In] in Hc, Hp.
  destruct Hc as [<- | [<- | [<- | []]]];
    destruct Hp as [<- | [<- | [<- | []]]]; split; reflexivity.
Qed.

Lemma generateNewParams_valid_witness :
  exists params : NegotiationParams.t,
    generateNewParams (1 # 2) (9 # 10) = Some params /\
    NegotiationParams.c params < NegotiationParams.p params.
Proof.
  destruct (generateNewParams_valid (1 # 2) (9 # 10))
    as (params & Hgen & _ & _ & _ & _ & _ & Hcp);
    [discriminate | reflexivity | discriminate | reflexivity |].
  exists params. split; [exact Hgen | exact Hcp].
Defined.

(** A counter-quantity comes from [findQForTargetRetailerProfit] at a
    positive price. *)
Lemma classify_counter_quantity (params : NegotiationParams.t)
    (nash : NashSolution.t) (lastUserOffer : LastUserOffer.t) (w newQ : Q) :
  classify lastUserOffer params nash = CounterQuantity w newQ ->
  0 < w /\
  findQForTargetRetailerProfit w (NashSolution.retailer_profit nash) params = Some newQ.
Proof.
  unfold classify, analyseOffer. cbv zeta.
  destruct (validField (LastUserOffer.w lastUserOffer)) as [w'|] eqn:Hw;
    destruct (validField (LastUserOffer.q lastUserOffer)) as [q'|] eqn:Hq;
    cbn [action Offer.w Offer.q]; try apply validField_some in Hw.
  - destruct (Js.leb _ _); [discriminate|].
    destruct (findWForTargetRetailerProfit _ _ _); discriminate.
  - destruct (findQForTargetRetailerProfit w' _ _) as [q''|] eqn:Hfind; [|intros [=]].
    intros [= <- <-]. split; [apply Hw | exact Hfind].
  - destruct (findWForTargetRetailerProfit _ _ _); discriminate.
  - discriminate.
Qed.

(** In a generated session the Nash retailer profit is at least [p]. *)
Lemma generated_target_at_least_p (c p : Q) :
  In c C_VALUES -> In p P_VALUES ->
  p <= NashSolution.retailer_profit
         (nashBargainingSolution (NegotiationParams.mk c p 0 100)).
Proof.
  unfold C_VALUES, P_VALUES. cbn [In].
  intros [<- | [<- | [<- | []]]] [<- | [<- | [<- | []]]]; vm_compute; discriminate.
Qed.

(** X19: in every session that [generateNewParams] can start, with the Nash
    solution of its parameters as the benchmark, a counter-quantity that
    the policy proposes is at least [1]. *)
Theorem generated_session_counter_quantity (random1 random2 : Q)
    (params : NegotiationParams.t) (lastUserOffer : LastUserOffer.t) (w newQ : Q) :
  0 <= random1 -> random1 < 1 -> 0 <= random2 -> random2 < 1 ->
  generateNewParams random1 random2 = Some params ->
  classify lastUserOffer params (nashBargainingSolution params)
  = CounterQuantity w newQ ->
  1 <= newQ.
Proof.
  intros Ha0 Ha1 Hb0 Hb1 Hgen Hcounter.
  destruct (generateNewParams_cases random1 random2 Ha0 Ha1 Hb0 Hb1)
    as (c & p & Hc & Hp & Hgen').
  rewrite Hgen in Hgen'. injection Hgen' as ->.
  pose proof (generated_target_at_least_p c p Hc Hp) as Htarget.
  destruct (classify_counter_quantity _ _ _ _ _ Hcounter) as [Hw Hfind].
  set (T := NashSolution.retailer_profit
              (nashBargainingSolution (NegotiationParams.mk c p 0 100))) in *.
  assert (Hppos : 0 < p).
  { unfold P_VALUES in Hp. cbn [In] in Hp.
    destruct Hp as [<- | [<- | [<- | []]]]; reflexivity. }
  destruct (Qlt_le_dec w p) as [Hwp|Hwp].
  - apply (findQ_positive_quantity (NegotiationParams.mk c p 0 100) w T newQ).
    + discriminate.
    + reflexivity.
    + exact Hwp.
    + cbn [NegotiationParams.p]. lra.
    + exact Hfind.
  - revert Hfind. unfold findQForTargetRetailerProfit. cbv zeta.
    cbn [NegotiationParams.p].
    apply leb_true in Hwp. rewrite Hwp.
    assert (HT : Js.leb T 0 = false) by (apply leb_false; lra).
    rewrite HT. intros [=].
Qed.

Lemma generated_session_counter_quantity_witness :
  classify (LastUserOffer.mk (Some (93266999 # 10000000)) None)
    (NegotiationParams.mk 4 12 0 100)
    (nashBargainingSolution (NegotiationParams.mk 4 12 0 100))
  = CounterQuantity (93266999 # 10000000) 100 /\
  1 <= 100.
Proof.
  assert (Hcounter :
    classify (LastUserOffer.mk (Some (93266999 # 10000000)) None)
      (NegotiationParams.mk 4 12 0 100)
      (nashBargainingSolution (NegotiationParams.mk 4 12 0 100))
    = CounterQuantity (93266999 # 10000000) 100)
    by (vm_compute; reflexivity).
  split; [exact Hcounter|].
  apply (generated_session_counter_quantity (1 # 2) (9 # 10)
           (NegotiationParams.mk 4 12 0 100)
           (LastUserOffer.mk (Some (93266999 # 10000000)) None)
           (93266999 # 10000000) 100).
  - discriminate.
  - reflexivity.
  - discriminate.
  - reflexivity.
  - vm_compute. reflexivity.
  - exact Hcounter.
Defined.

(** ** App.tsx: the latest offers and the acceptance *)

Lemma latestOffer_snoc (prev : list Message.t) (m : Message.t) :
  latestOffer (prev ++ [m])
  = match Message.offer m with
    | Some offer => Some offer
    | None => latestOffer prev
    end.
Proof.
  unfold latestOffer. rewrite rev_unit. cbn [find].
  destruct (Message.offer m) eqn:Hoffer; [exact Hoffer | reflexivity].
Qed.

Lemma latestAiOffer_snoc (prev : list Message.t) (m : Message.t) :
  latestAiOffer (prev ++ [m])
  = match Message.sender m, Message.offer m with
    | ai, Some offer => Some offer
    | _, _ => latestAiOffer prev
    end.
Proof.
  unfold latestAiOffer. rewrite rev_unit. cbn [find].
  destruct (Message.sender m); destruct (Message.offer m) eqn:Hoffer;
    try reflexivity. exact Hoffer.
Qed.

(** X20: after [addMessage], the latest offer is the offer of the new
    message when it carries one, and the latest offer of the messages before
    otherwise; the latest AI offer changes only when the new message is the
    AI's and carries an offer. *)
Theorem latest_offers_after_addMessage (id : Q) (sender : Sender)
    (text : string) (offer : option Offer.t) (prev : list Message.t) :
  latestOffer (addMessage id sender text offer prev)
  = match offer with
    | Some o => Some o
    | None => latestOffer prev
    end /\
  latestAiOffer (addMessage id sender text offer prev)
  = match sender, offer with
    | ai, Some o => Some o
    | _, _ => latestAiOffer prev
    end.
Proof.
  unfold addMessage. rewrite latestOffer_snoc, latestAiOffer_snoc.
  split; reflexivity.
Qed.

(** X21: accepting.  When there is a latest AI offer and the negotiation is
    not concluded, [handleAcceptOffer] concludes it with a user message that
    carries that offer: the offer becomes the latest offer, stays the latest
    AI offer, and the summary shows it with its profits; accepting again
    changes nothing.  Without an AI offer, or once concluded, the handler
    leaves the state as it is. *)
Theorem handleAcceptOffer_concludes (acceptanceText : Offer.t -> string)
    (id id' : Q) (state : Negotiation) (negotiationParams : NegotiationParams.t) :
  (forall offer : Offer.t,
      latestAiOffer (messages state) = Some offer ->
      isConcluded state = false ->
      let state' := handleAcceptOffer acceptanceText id state in
      isConcluded state' = true /\
      messages state'
      = messages state
        ++ [Message.mk id user (acceptanceText offer) (Some offer)] /\
      latestOffer (messages state') = Some offer /\
      latestAiOffer (messages state') = Some offer /\
      summaryShown state' negotiationParams
      = Some (offer,
              calculateProfits (Offer.w offer) (Offer.q offer) negotiationParams) /\
      handleAcceptOffer acceptanceText id' state' = state') /\
  (latestAiOffer (messages state) = None \/ isConcluded state = true ->
   handleAcceptOffer acceptanceText id state = state).
Proof.
  split.
  - intros offer Hai Hopen. cbv zeta.
    unfold handleAcceptOffer at 1 2 3 4 5. rewrite Hai, Hopen.
    cbn [isConcluded messages].
    assert (Hlatest : latestOffer
                        (addMessage id user (acceptanceText offer) (Some offer)
                           (messages state)) = Some offer).
    { unfold addMessage. rewrite latestOffer_snoc. reflexivity. }
    assert (HlatestAi : latestAiOffer
                          (addMessage id user (acceptanceText offer) (Some offer)
                             (messages state)) = Some offer).
    { unfold addMessage. rewrite latestAiOffer_snoc. exact Hai. }
    split; [reflexivity|]. split; [reflexivity|].
    split; [exact Hlatest|]. split; [exact HlatestAi|]. split.
    + unfold summaryShown, profitCalcs. cbn [isConcluded messages].
      rewrite Hlatest. reflexivity.
    + unfold handleAcceptOffer. rewrite Hai, Hopen. cbn [messages isConcluded].
      rewrite HlatestAi. reflexivity.
  - intros [Hnone | Hdone]; unfold handleAcceptOffer.
    + rewrite Hnone. reflexivity.
    + rewrite Hdone. destruct (latestAiOffer (messages state)); reflexivity.
Qed.

Lemma handleAcceptOffer_concludes_witness :
  let state :=
    mkNegotiation [Message.mk 1 ai EmptyString (Some (Offer.mk 7 70))] false in
  latestOffer (messages (handleAcceptOffer (fun _ => EmptyString) 2 state))
  = Some (Offer.mk 7 70) /\
  isConcluded (handleAcceptOffer (fun _ => EmptyString) 2 state) = true.
Proof.
  cbv zeta.
  destruct (handleAcceptOffer_concludes (fun _ => EmptyString) 2 3
              (mkNegotiation [Message.mk 1 ai EmptyString (Some (Offer.mk 7 70))] false)
              INITIAL_PARAMS) as [Haccept _].
  destruct (Haccept (Offer.mk 7 70) eq_refl eq_refl)
    as (Hdone & _ & Hlatest & _).
  split; [exact Hlatest | exact Hdone].
Defined.

(** ** The chart of profit against demand *)

Lemma generateChartData_loop_step (fuel : nat) (w q c p d : Q)
    (data : list ChartPoint.t) :
  d <= 100 ->
  generateChartData_loop (S fuel) w q c p d data
  = generateChartData_loop fuel w q c p (d + 5) (data ++ [chartPoint w q c p d]).
Proof.
  intro Hd. cbn [generateChartData_loop]. apply leb_true in Hd. rewrite Hd.
  reflexivity.
Qed.

Lemma generateChartData_loop_exit (fuel : nat) (w q c p d : Q)
    (data : list ChartPoint.t) :
  100 < d ->
  generateChartData_loop fuel w q c p d data = data.
Proof.
  intro Hd. destruct fuel as [|fuel]; [reflexivity|].
  cbn [generateChartData_loop]. apply leb_false in Hd. rewrite Hd. reflexivity.
Qed.

Lemma generateChartData_loop_all (k : nat) (w q c p : Q) :
  generateChartData_loop (21 + k) w q c p 0 []
  = map (chartPoint w q c p) chartDemands.
Proof.
  cbn [Nat.add].
  do 21 (rewrite generateChartData_loop_step by discriminate).
  rewrite generateChartData_loop_exit by reflexivity.
  reflexivity.
Qed.

Lemma Math_min_spec (x y : Q) :
  Math_min x y <= x /\ Math_min x y <= y /\ (y <= x -> Math_min x y == y).
Proof.
  unfold Math_min. js_cases; repeat split; intros; lra.
Qed.

(** X22: [generateChartData] returns 21 points, one for each demand 0, 5,
    ..., 100 in this order, whatever the demand range of the session; the
    loop leaves by its condition, not for lack of fuel.  The point at the
    demand [d] holds [w * min(d, q) - c * q] and [(p - w) * min(d, q)], and
    from the demand [q] on the lines are flat: the sales are [q], so every
    such point holds [w * q - c * q] and [(p - w) * q]. *)
Theorem generateChartData_points (w q c p : Q) :
  (forall k : nat,
      generateChartData_loop (21 + k) w q c p 0 [] = generateChartData w q c p) /\
  map ChartPoint.demand (generateChartData w q c p) = chartDemands /\
  List.length (generateChartData w q c p) = 21%nat /\
  (forall point : ChartPoint.t,
      In point (generateChartData w q c p) ->
      point = chartPoint w q c p (ChartPoint.demand point) /\
      (q <= ChartPoint.demand point ->
       Math_min (ChartPoint.demand point) q == q /\
       ChartPoint.supplierProfit point == w * q - c * q /\
       ChartPoint.retailerProfit point == (p - w) * q)).
Proof.
  assert (Hdata : generateChartData w q c p = map (chartPoint w q c p) chartDemands)
    by apply (generateChartData_loop_all 1).
  split; [intro k; rewrite Hdata; apply generateChartData_loop_all|].
  rewrite Hdata. split; [reflexivity|]. split; [reflexivity|].
  intros point Hin. apply in_map_iff in Hin. destruct Hin as (d & <- & _).
  unfold chartPoint.
  cbn [ChartPoint.demand ChartPoint.supplierProfit ChartPoint.retailerProfit].
  split; [reflexivity|].
  intro Hq. destruct (Math_min_spec d q) as (_ & _ & Hmin).
  split; [exact (Hmin Hq)|].
  rewrite (Hmin Hq). split; reflexivity.
Qed.

Lemma generateChartData_points_witness :
  ChartPoint.supplierProfit (chartPoint 7 70 3 10 80) == 7 * 70 - 3 * 70.
Proof.
  destruct (generateChartData_points 7 70 3 10) as (_ & _ & _ & Hpoints).
  destruct (Hpoints (chartPoint 7 70 3 10 80)) as [_ Hline].
  - rewrite (generateChartData_loop_all 1 7 70 3 10 : generateChartData 7 70 3 10 = _).
    apply in_map. unfold chartDemands. cbn [In]. tauto.
  - apply Hline. discriminate.
Defined.

(** ** The offers that the form sends and the dashboard analyses *)

(** X23: the dashboard analyses a pair of entered numbers exactly when the
    offer form, neither loading nor concluded, would send it, and then the
    offer analysed is the pair itself, with [w >= c] and [q > 0]. *)
Theorem analysisOffer_iff_sendable (w q : option Q) (params : NegotiationParams.t) :
  (handleSendOffer_rejects w q params false false = false
   <-> exists offer : Offer.t, analysisOffer w q params = Some offer) /\
  (forall offer : Offer.t,
      analysisOffer w q params = Some offer ->
      w = Some (Offer.w offer) /\ q = Some (Offer.q offer) /\
      NegotiationParams.c params <= Offer.w offer /\ 0 < Offer.q offer).
Proof.
  unfold handleSendOffer_rejects, analysisOffer.
  destruct w as [w|], q as [q|]; cbn [orb];
    try (split; [split; [discriminate | intros [offer [=]]] | intros offer [=]]).
  unfold Js.ltb, Js.leb.
  destruct (Qle_bool (NegotiationParams.c params) w) eqn:Hw;
    destruct (Qle_bool q 0) eqn:Hq; cbn [negb andb orb].
  - split; [split; [discriminate | intros [offer [=]]] | intros offer [=]].
  - split.
    + split; [intros _; eexists; reflexivity | reflexivity].
    + intros offer [= <-]. cbn [Offer.w Offer.q].
      apply Qle_bool_iff in Hw. apply (leb_false q 0) in Hq. auto.
  - split; [split; [discriminate | intros [offer [=]]] | intros offer [=]].
  - split; [split; [discriminate | intros [offer [=]]] | intros offer [=]].
Qed.

Lemma analysisOffer_iff_sendable_witness :
  Some 7 = Some (Offer.w (Offer.mk 7 70)) /\ 3 <= 7 /\ 0 < 70.
Proof.
  destruct (analysisOffer_iff_sendable (Some 7) (Some 70) INITIAL_PARAMS)
    as [_ Hoffer].
  destruct (Hoffer (Offer.mk 7 70) eq_refl) as (Hw & _ & Hc & Hq).
  split; [exact Hw|]. split; [exact Hc | exact Hq].
Defined.

(** ** Counter-prices *)

Lemma findW_positive_sales (params : NegotiationParams.t) (q T w : Q) :
  0 < q ->
  findWForTargetRetailerProfit q T params = Some w ->
  0 < expectedMinQuantityDemand q params.
Proof.
  intros Hq. unfold findWForTargetRetailerProfit. cbv zeta.
  apply leb_false in Hq. rewrite Hq, !andb_false_r.
  destruct (Js.leb (expectedMinQuantityDemand q params) 0) eqn:HE; [discriminate|].
  intros _. apply leb_false in HE. exact HE.
Qed.



(** X25: the conditional maximum price of scenario 4 is the highest price
    the policy counters with.  For [c > 0], demand on a range
    [demand_min < demand_max] with [demand_max > 0] and a target that is
    not negative: whenever some offer is answered by [CounterPrice q newW],
    the analysis of a message without an offer carries a maximum price, the
    one found at [q = demand_max], and [newW] does not exceed it. *)
Theorem counter_price_at_most_max_price (params : NegotiationParams.t)
    (nash : NashSolution.t) (lastUserOffer : LastUserOffer.t) (q newW : Q) :
  0 < NegotiationParams.c params ->
  NegotiationParams.demand_min params < NegotiationParams.demand_max params ->
  0 < NegotiationParams.demand_max params ->
  0 <= NashSolution.retailer_profit nash ->
  classify lastUserOffer params nash = CounterPrice q newW ->
  exists w_for_max_price q_for_min_w,
    classify (LastUserOffer.mk None None) params nash
    = ConditionalOffer (NashSolution.wholesale_price nash)
        (NashSolution.order_quantity nash)
        (Some w_for_max_price) (NegotiationParams.demand_max params)
        (NegotiationParams.c params + (1 # 100)) q_for_min_w /\
    findWForTargetRetailerProfit (NegotiationParams.demand_max params)
      (NashSolution.retailer_profit nash) params = Some w_for_max_price /\
    newW <= w_for_max_price.
Proof.
  intros Hc Hrange Hmax HT Hcounter.
  destruct (classify_counter_price params nash lastUserOffer q newW Hcounter)
    as [Hq Hfind].
  pose proof (findW_positive_sales params q _ newW Hq Hfind) as HE.
  destruct (expected_sales_upper q params Hrange) as [_ Hmean].
  pose proof (expected_sales_high (NegotiationParams.demand_max params) params
                Hrange (Qle_refl _)) as Hhigh.
  assert (HEmax : expectedMinQuantityDemand q params
                  <= expectedMinQuantityDemand
                       (NegotiationParams.demand_max params) params).
  { rewrite Hhigh. unfold Qdiv. change (/ 2) with (1 # 2). exact Hmean. }
  clear Hhigh Hmean.
  rewrite findW_closed_form in Hfind by assumption. cbv zeta in Hfind.
  destruct (Js.ltb _ _) eqn:Hfloor in Hfind; [discriminate|].
  injection Hfind as <-. apply ltb_false in Hfloor.
  set (T := NashSolution.retailer_profit nash) in *.
  set (E := expectedMinQuantityDemand q params) in *.
  set (Emax := expectedMinQuantityDemand (NegotiationParams.demand_max params) params) in *.
  assert (HEmaxpos : 0 < Emax) by lra.
  assert (Hdiv : T / Emax <= T / E).
  { apply Qle_shift_div_l; [exact HE|].
    assert (Ht : T / Emax * Emax == T) by (field; lra).
    assert (Hnn : 0 <= T / Emax) by (apply Qle_shift_div_l; [exact HEmaxpos | lra]).
    assert (0 <= T / Emax * (Emax - E)) by (apply Qmult_le_0_compat; lra).
    lra. }
  assert (Hfindmax : findWForTargetRetailerProfit
                       (NegotiationParams.demand_max params) T params
                     = Some (NegotiationParams.p params - T / Emax)).
  { rewrite findW_closed_form by assumption. cbv zeta. fold Emax.
    assert (Hf : Js.ltb (NegotiationParams.p params - T / Emax)
                   (NegotiationParams.c params) = false)
      by (apply ltb_false; lra).
    rewrite Hf. reflexivity. }
  exists (NegotiationParams.p params - T / Emax).
  eexists. split; [|split; [exact Hfindmax | lra]].
  unfold classify, analyseOffer. cbv zeta.
  cbn [LastUserOffer.w LastUserOffer.q validField action].
  fold T. rewrite Hfindmax. cbn [Js.truthy].
  assert (Hnonzero : Qeq_bool (NegotiationParams.p params - T / Emax) 0 = false).
  { destruct (Qeq_bool _ 0) eqn:Hz; [|reflexivity].
    apply Qeq_bool_iff in Hz. lra. }
  rewrite Hnonzero. reflexivity.
Qed.

Lemma counter_price_at_most_max_price_witness :
  exists newW w_for_max_price : Q,
    classify (LastUserOffer.mk (Some 9) (Some 70)) INITIAL_PARAMS
      (nashBargainingSolution INITIAL_PARAMS) = CounterPrice 70 newW /\
    findWForTargetRetailerProfit 100
      (NashSolution.retailer_profit (nashBargainingSolution INITIAL_PARAMS))
      INITIAL_PARAMS = Some w_for_max_price /\
    newW <= w_for_max_price.
Proof.
  assert (Hcounter : exists newW : Q,
             classify (LastUserOffer.mk (Some 9) (Some 70)) INITIAL_PARAMS
               (nashBargainingSolution INITIAL_PARAMS) = CounterPrice 70 newW).
  { eexists. vm_compute. reflexivity. }
  destruct Hcounter as [newW Hcounter].
  destruct (counter_price_at_most_max_price INITIAL_PARAMS
              (nashBargainingSolution INITIAL_PARAMS)
              (LastUserOffer.mk (Some 9) (Some 70)) 70 newW)
    as (wmax & qmin & _ & Hmax & Hle);
    [reflexivity | reflexivity | reflexivity | discriminate | exact Hcounter |].
  exists newW, wmax. split; [exact Hcounter|]. split; [exact Hmax | exact Hle].
Defined.
